(** * lah: the table layout of [printTable] and its helpers

    A shallow embedding of the layout code of [lah.go]: the escape-sequence
    stripper [stripANSI], the column measurer [calculateDisplayWidths], the
    clamp, floor check and shrink loop of [printTable], the constraint table
    [columnConstraints] with [lookupMin], and the unit selection of
    [formatSize]; then the cell formatters [formatName],
    [formatPermissions] and [formatGitStatus], the status text of
    [getGitStatus], the orders of [sortFiles], and [printTable] from the
    files.

    Conventions.
    - A Go [string] is a sequence of bytes: [String.string], whose
      characters are the 8-bit [ascii].
    - A Go [int] is 64 bits wide on the targets the Makefile builds
      (amd64, arm64). It is a [Z], and [+], [-], [*] and [/] go through
      [GoInt.wrap], the two's complement wrap-around.
    - A slice is a [list]; [s[i]] is the partial lookup [s !! i] and an
      index out of range is a run-time panic; a panic is [None]. *)

From Stdlib Require Import ZArith List Lia Bool String Ascii.
From stdpp Require Import base option list.
From Stdlib Require Import DecimalString.
From Equations Require Import Equations.

Local Open Scope Z_scope.

(** ** Machine integers *)

Module GoInt.

Definition minInt : Z := - 2 ^ 63.
Definition maxInt : Z := 2 ^ 63 - 1.

Definition inRange (z : Z) : Prop := minInt <= z <= maxInt.

Definition wrap (z : Z) : Z := (z + 2 ^ 63) mod 2 ^ 64 - 2 ^ 63.

Definition add (a b : Z) : Z := wrap (a + b).
Definition sub (a b : Z) : Z := wrap (a - b).
Definition mul (a b : Z) : Z := wrap (a * b).

(** Go's [/] truncates toward zero and panics on a zero divisor. *)
Definition quo (a b : Z) : option Z :=
  if b =? 0 then None else Some (wrap (Z.quot a b)).

End GoInt.

(** ** Loops

    [for i := range n] over a state that the body may fail to produce. *)

Fixpoint forFrom {S : Type} (body : nat -> S -> option S)
    (i n : nat) (s : S) : option S :=
  match n with
  | O => Some s
  | Datatypes.S n' =>
      match body i s with
      | Some s' => forFrom body (Datatypes.S i) n' s'
      | None => None
      end
  end.

Definition forRange {S : Type} (n : nat) (body : nat -> S -> option S)
    (s : S) : option S :=
  forFrom body 0 n s.

(** ** Text measurer *)

Definition byteVal (c : ascii) : Z := Z.of_N (N_of_ascii c).

Definition ESC : ascii := "027"%char.

Definition isEsc (c : ascii) : bool := byteVal c =? 27.

Definition isBracket (c : ascii) : bool := byteVal c =? 91.

(** The guard of the inner loop of [stripANSI] is the negation of this:
    [(s[j] < 'a' || s[j] > 'z') && (s[j] < 'A' || s[j] > 'Z')]. *)
Definition isLetter (c : ascii) : bool :=
  negb (((byteVal c <? 97) || (122 <? byteVal c))
        && ((byteVal c <? 65) || (90 <? byteVal c))).

(** [stripANSI]. The outer recursion is the loop on [i]; the inner [skip] is
    the loop on [j], entered after [ESC] and ['[']: it advances to the first
    letter, and the [j++] after it steps over that letter. When the inner
    loop reaches the end of the string, [j++] leaves [i] beyond the end and
    the outer loop stops. *)
Fixpoint stripANSI (s : string) : string :=
  match s with
  | EmptyString => EmptyString
  | String c rest =>
      if isEsc c then
        match rest with
        | String b rest' =>
            if isBracket b then
              (fix skip (t : string) : string :=
                 match t with
                 | EmptyString => EmptyString
                 | String d t' =>
                     if isLetter d then stripANSI t' else skip t'
                 end) rest'
            else stripANSI rest
        | EmptyString => EmptyString
        end
      else String c (stripANSI rest)
  end.

(** [unicode/utf8]: the entry of the table [first] for a lead byte, as
    [(size, lo, hi)] with [lo..hi] the accepted range of the second byte;
    [None] is the entry [xx] of an invalid lead byte. *)
Definition utf8First (b : Z) : option (Z * Z * Z) :=
  if b <? 194 then None
  else if b <? 224 then Some (2, 128, 191)
  else if b =? 224 then Some (3, 160, 191)
  else if b <? 237 then Some (3, 128, 191)
  else if b =? 237 then Some (3, 128, 159)
  else if b <? 240 then Some (3, 128, 191)
  else if b =? 240 then Some (4, 144, 191)
  else if b <? 244 then Some (4, 128, 191)
  else if b =? 244 then Some (4, 128, 143)
  else None.

Definition outside (lo hi : Z) (c : ascii) : bool :=
  (byteVal c <? lo) || (hi <? byteVal c).

(** [utf8.RuneCountInString]: one per rune, an invalid or short encoding
    counting one per byte. The count is bounded by [len(s)], which is an
    [int], so [n++] does not wrap. *)
Fixpoint RuneCountInString (s : string) : Z :=
  match s with
  | EmptyString => 0
  | String c r1 =>
      1 +
      (if byteVal c <? 128 then RuneCountInString r1
       else
         match utf8First (byteVal c) with
         | None => RuneCountInString r1
         | Some (size, lo, hi) =>
             if Z.of_nat (String.length s) <? size then RuneCountInString r1
             else
               match r1 with
               | EmptyString => RuneCountInString r1
               | String c1 r2 =>
                   if outside lo hi c1 then RuneCountInString r1
                   else if size =? 2 then RuneCountInString r2
                   else
                     match r2 with
                     | EmptyString => RuneCountInString r1
                     | String c2 r3 =>
                         if outside 128 191 c2 then RuneCountInString r1
                         else if size =? 3 then RuneCountInString r3
                         else
                           match r3 with
                           | EmptyString => RuneCountInString r1
                           | String c3 r4 =>
                               if outside 128 191 c3
                               then RuneCountInString r1
                               else RuneCountInString r4
                           end
                     end
               end
         end)
  end.

(** The display width of a cell, as [calculateDisplayWidths] takes it. *)
Definition measure (s : string) : Z := RuneCountInString (stripANSI s).

(** ** Width calculator *)

(** [for i, x := range l] over a state, for a body that cannot fail. *)
Fixpoint rangeFold {A S : Type} (f : nat -> A -> S -> S)
    (i : nat) (l : list A) (s : S) : S :=
  match l with
  | [] => s
  | x :: l' => rangeFold f (Datatypes.S i) l' (f i x s)
  end.

(** The body of the inner loop of [calculateDisplayWidths], at column [j] of
    one row. A row shorter than the header makes [data[i][j]] panic. *)
Definition cellStep (row : list string) (j : nat) (widths : list Z)
    : option (list Z) :=
  cell ← row !! j;
  cur ← widths !! j;
  let width := measure cell in
  Some (if cur <? width then <[j := width]> widths else widths).

Definition rowStep (data : list (list string)) (cols : nat)
    (i : nat) (widths : list Z) : option (list Z) :=
  row ← data !! i;
  forRange cols (cellStep row) widths.

Definition calculateDisplayWidths (data : list (list string))
    : option (list Z) :=
  match data with
  | [] => Some []
  | header :: _ =>
      let cols := length header in
      forRange (length data) (rowStep data cols) (replicate cols 0)
  end.

(** ** Constraints *)

Definition columnConstraints (showGit : bool) : list Z * list Z :=
  let mins := [15; 6; 10; 10] in
  let maxs := [50; 10; 15; 12] in
  if showGit then (mins ++ [6], maxs ++ [12]) else (mins, maxs).

Definition lookupMin (mins : list Z) (idx : nat) (fallback : Z) : Z :=
  match mins !! idx with
  | Some m => if 0 <? m then m else fallback
  | None => fallback
  end.

(** ** The layout steps of [printTable] *)

(** What [printTable] leaves on the terminal: nothing (the early return
    on an empty listing), the advisory line "Terminal is too small to display
    the table. Please widen your terminal window." (then it returns), or the
    table built by [table.NewTableWithWidths] from the final widths. *)
Inductive outcome : Type :=
| NoOutput
| TooSmall
| Rendered (widths : list Z).

Record shrinkState : Type := mkShrink {
  widths : list Z;
  excess : Z;
  totalShrinkable : Z
}.

(** [i != 1 && i != 3]: the Size and Perms columns are not shrunk. *)
Definition shrinkCol (i : nat) : bool :=
  negb (Nat.eqb i 1) && negb (Nat.eqb i 3).

Section Layout.

Variables mins maxs : list Z.

(** The clamp loop, lines 265 to 272: the minimum first, the maximum
    after it, on the width the first test left. *)
Definition clampStep (i : nat) (ws : list Z) : option (list Z) :=
  w ← ws !! i;
  let ws1 :=
    match mins !! i with
    | Some m => if (0 <? m) && (w <? m) then <[i := m]> ws else ws
    | None => ws
    end in
  w1 ← ws1 !! i;
  Some match maxs !! i with
       | Some M => if (0 <? M) && (M <? w1) then <[i := M]> ws1 else ws1
       | None => ws1
       end.

Definition clamp (ws : list Z) : option (list Z) :=
  forRange (length ws) clampStep ws.

(** Lines 275 to 279. *)
Definition minContentWidth (n : nat) : Z :=
  fold_left (fun acc i => GoInt.add acc (lookupMin mins i 4)) (seq 0 n) 0.

Definition borderWidth (n : nat) : Z :=
  GoInt.add (GoInt.mul (GoInt.sub (Z.of_nat n) 1) 3) 2.

(** Lines 286 to 291. *)
Definition totalContentWidth (ws : list Z) : Z :=
  rangeFold (fun _ w acc => GoInt.add acc w) 0 ws 0.

Definition totalWidth (ws : list Z) : Z :=
  GoInt.add (totalContentWidth ws) (borderWidth (length ws)).

(** Lines 297 to 304. *)
Definition slackStep (i : nat) (w : Z) (acc : Z) : Z :=
  if shrinkCol i then
    let minWidth := lookupMin mins i 4 in
    if 0 <? GoInt.sub w minWidth
    then GoInt.add acc (GoInt.sub w minWidth)
    else acc
  else acc.

Definition initialShrinkable (ws : list Z) : Z :=
  rangeFold slackStep 0 ws 0.

(** Lines 307 to 325: one turn of the shrink loop. *)
Definition shrinkStep (i : nat) (st : shrinkState) : option shrinkState :=
  if shrinkCol i then
    let minWidth := lookupMin mins i 4 in
    w ← widths st !! i;
    let shrinkable := GoInt.sub w minWidth in
    if (0 <? shrinkable) && (0 <? totalShrinkable st) then
      q ← GoInt.quo (GoInt.mul shrinkable (excess st)) (totalShrinkable st);
      let shrinkAmount := if shrinkable <? q then shrinkable else q in
      let w1 := GoInt.sub w shrinkAmount in
      let w2 := if w1 <? minWidth then minWidth else w1 in
      Some (mkShrink (<[i := w2]> (widths st))
                     (GoInt.sub (excess st) shrinkAmount)
                     (GoInt.sub (totalShrinkable st) shrinkable))
    else Some st
  else Some st.

(** Lines 285 to 326: the fit step, on the clamped widths. *)
Definition fit (terminalWidth : Z) (ws : list Z) : option (list Z) :=
  if terminalWidth <? totalWidth ws then
    let excess := GoInt.sub (totalWidth ws) terminalWidth in
    st ← forRange (length ws) shrinkStep
           (mkShrink ws excess (initialShrinkable ws));
    Some (widths st)
  else Some ws.

(** Lines 263 to 334, from the cell grid to what is printed. *)
Definition layout (data : list (list string)) (terminalWidth : Z)
    : option outcome :=
  natural ← calculateDisplayWidths data;
  displayWidths ← clamp natural;
  let n := length displayWidths in
  if terminalWidth <? GoInt.add (minContentWidth n) (borderWidth n)
  then Some TooSmall
  else
    final ← fit terminalWidth displayWidths;
    Some (Rendered final).

End Layout.

(** ** [printTable] *)

(** The formatted cells of one file: the results of [formatName],
    [formatSize], [formatModified], [formatPermissions] and
    [formatGitStatus]. *)
Record fileRow : Type := mkRow {
  cellName : string;
  cellSize : string;
  cellModified : string;
  cellPerms : string;
  cellGit : string
}.

Definition headers (showGit : bool) : list string :=
  ["Name"; "Size"; "Modified"; "Perms"]%string
    ++ (if showGit then ["Git"%string] else []).

Definition rowCells (showGit : bool) (f : fileRow) : list string :=
  [cellName f; cellSize f; cellModified f; cellPerms f]
    ++ (if showGit then [cellGit f] else []).

(** [printTable], with the value [getTerminalWidth()] returned as an
    argument. *)
Definition printTable (showGit : bool) (files : list fileRow)
    (getTerminalWidth : Z) : option outcome :=
  match files with
  | [] => Some NoOutput
  | _ =>
      let terminalWidth := Z.max getTerminalWidth 40 in
      let data := headers showGit :: map (rowCells showGit) files in
      let '(mins, maxs) := columnConstraints showGit in
      layout mins maxs data terminalWidth
  end.

(** ** [formatSize] *)

(** The loop of lines 415 to 418, on [(n, div, exp)]; [n] and [div] are
    [int64], [exp] is an [int]. The divisor of [n /= unit] is the constant
    1024, so the quotient neither panics nor wraps. *)
Equations? unitLoop (n div exp : Z) : Z * Z
    by wf (Z.to_nat (Z.log2 n)) lt :=
  unitLoop n div exp with Z_le_dec 1024 n => {
    | left _ := unitLoop (Z.quot n 1024) (GoInt.mul div 1024) (GoInt.add exp 1);
    | right _ := (div, exp) }.
Proof.
  rewrite Z.quot_div_nonneg by lia.
  change 1024 with (2 ^ 10). rewrite <- Z.shiftr_div_pow2 by lia.
  rewrite Z.log2_shiftr by lia.
  assert (10 <= Z.log2 n) by (apply Z.log2_le_pow2; lia).
  lia.
Qed.

Definition units : list string := ["KB"; "MB"; "GB"; "TB"]%string.

(** [units[exp]]: an index below zero or beyond the slice panics. *)
Definition unitAt (exp : Z) : option string :=
  if exp <? 0 then None else units !! Z.to_nat exp.

Section FormatSize.

(** The collaborators of [formatSize]: [fmt.Sprintf] at the two format
    strings, and the two colours of [fatih/color]. [sprintfUnit size div u]
    stands for [fmt.Sprintf("%.1f %s", float64(size)/float64(div), u)]. *)
Variable sprintfBytes : Z -> string.
Variable sprintfUnit : Z -> Z -> string -> string.
Variables fgCyan fgHiWhite : string -> string.

Definition formatSize (size : Z) (isDir : bool) : option string :=
  if isDir then Some (fgCyan "-"%string)
  else if size <? 1024 then Some (sprintfBytes size)
  else
    let '(div, exp) := unitLoop (Z.quot size 1024) 1024 0 in
    u ← unitAt exp;
    Some (fgHiWhite (sprintfUnit size div u)).

End FormatSize.

(** ** Vocabulary of the statements *)

(** What follows the first letter of [t]; nothing when [t] has no letter. *)
Fixpoint afterTerminator (t : string) : string :=
  match t with
  | EmptyString => EmptyString
  | String d t' => if isLetter d then t' else afterTerminator t'
  end.

Fixpoint hasLetter (t : string) : bool :=
  match t with
  | EmptyString => false
  | String d t' => isLetter d || hasLetter t'
  end.

Definition startsWithBracket (t : string) : bool :=
  match t with
  | EmptyString => false
  | String b _ => isBracket b
  end.

(** The tail of a recognised escape sequence: a bracket, parameters that
    are not letters, one letter. *)
Definition recognizedTail (t : string) : bool :=
  match t with
  | EmptyString => false
  | String b t' => isBracket b && hasLetter t'
  end.

(** The input of [TestStripANSI]. *)
Definition redStyled : string :=
  String ESC ("[31mRed Text" ++ String ESC "[0m")%string.

Definition columnCount (data : list (list string)) : nat :=
  match data with
  | [] => O
  | header :: _ => length header
  end.

(** Every row has as many cells as the header. *)
Definition rectangular (data : list (list string)) : Prop :=
  Forall (fun row => length row = columnCount data) data.

Definition sumZ (ws : list Z) : Z := fold_right Z.add 0 ws.

(** [(columnCount - 1) * 3 + 2], in the integers. *)
Definition borderOverhead (n : nat) : Z := (Z.of_nat n - 1) * 3 + 2.

(** Sum of the widths plus border overhead, in the integers. *)
Definition renderedWidth (ws : list Z) : Z :=
  sumZ ws + borderOverhead (length ws).

(** Sum of the minimums of the first [n] columns, 4 where none is
    declared, plus border overhead, in the integers. *)
Definition feasibilityFloor (mins : list Z) (n : nat) : Z :=
  sumZ (map (fun i => lookupMin mins i 4) (seq 0 n)) + borderOverhead n.

(** The slack of column [i] at width [w]: nothing for the Size and Perms
    columns, nothing for a column at or below its minimum. *)
Definition slackOf (mins : list Z) (i : nat) (w : Z) : Z :=
  if shrinkCol i then Z.max 0 (w - lookupMin mins i 4) else 0.

Fixpoint slackFrom (mins : list Z) (i : nat) (ws : list Z) : Z :=
  match ws with
  | [] => 0
  | w :: ws' => slackOf mins i w + slackFrom mins (Datatypes.S i) ws'
  end.

Definition shrinkableSlack (mins : list Z) (ws : list Z) : Z :=
  slackFrom mins 0 ws.

(** The slot [j] after one turn of the inner loop of
    [calculateDisplayWidths] on [row]. *)
Definition cellMax (row : list string) (j : nat) (cur : Z) : Z :=
  match row !! j with
  | Some cell => Z.max cur (measure cell)
  | None => cur
  end.

(** The slot [i] after one turn of the clamp loop, from its width [w]. *)
Definition clampVal (mins maxs : list Z) (i : nat) (w : Z) : Z :=
  let w1 :=
    match mins !! i with
    | Some m => if (0 <? m) && (w <? m) then m else w
    | None => w
    end in
  match maxs !! i with
  | Some M => if (0 <? M) && (M <? w1) then M else w1
  | None => w1
  end.

(** ** Vocabulary of the further properties *)

(** No byte of [s] is the escape marker. *)
Fixpoint noEsc (s : string) : bool :=
  match s with
  | EmptyString => true
  | String c s' => negb (isEsc c) && noEsc s'
  end.

(** Every byte of [s] is below [utf8.RuneSelf]. *)
Fixpoint isAscii (s : string) : bool :=
  match s with
  | EmptyString => true
  | String c s' => (byteVal c <? 128) && isAscii s'
  end.

(** A select-graphic-rendition sequence: the marker, a bracket, parameters
    and the terminator [m]. *)
Definition sgr (params : string) : string :=
  String ESC (String "["%char (params ++ "m"))%string.

(** ** Colours

    [fatih/color] is a collaborator: [color.New(attrs...).Sprint(text)] is
    the parameter [sprint attrs text] of the formatters below. *)

Inductive attribute : Type :=
| Bold | FgRed | FgGreen | FgYellow | FgBlue | FgMagenta | FgCyan | FgWhite
| FgHiBlack | FgHiRed | FgHiYellow | FgHiWhite.

(** What the formatters rely on: [Sprint] returns the text as it is
    (colours off) or between two SGR sequences whose parameters hold no
    letter (colours on). *)
Definition sgrPainter (sprint : list attribute -> string -> string) : Prop :=
  forall attrs text,
    sprint attrs text = text
    \/ exists p q, hasLetter p = false /\ hasLetter q = false
         /\ sprint attrs text = (sgr p ++ text ++ sgr q)%string.

(** The SGR code of an attribute, in decimal. *)
Definition attributeCode (a : attribute) : string :=
  match a with
  | Bold => "1" | FgRed => "31" | FgGreen => "32" | FgYellow => "33"
  | FgBlue => "34" | FgMagenta => "35" | FgCyan => "36" | FgWhite => "37"
  | FgHiBlack => "90" | FgHiRed => "91" | FgHiYellow => "93"
  | FgHiWhite => "97"
  end%string.

Fixpoint joinCodes (attrs : list attribute) : string :=
  match attrs with
  | [] => EmptyString
  | [a] => attributeCode a
  | a :: rest => (attributeCode a ++ ";" ++ joinCodes rest)%string
  end.

(** One painter of that shape: the codes joined by [;], the text, and
    the reset sequence. *)
Definition sgrSprint (attrs : list attribute) (text : string) : string :=
  (sgr (joinCodes attrs) ++ text ++ sgr "0")%string.

(** ** [formatPermissions] *)

(** The bits of [io/fs.FileMode] that [formatPermissions] and [formatName]
    test. *)
Definition ModeDir : Z := 2 ^ 31.
Definition ModeSymlink : Z := 2 ^ 27.
Definition ModeDevice : Z := 2 ^ 26.
Definition ModeNamedPipe : Z := 2 ^ 25.
Definition ModeSocket : Z := 2 ^ 24.
Definition ModeSetuid : Z := 2 ^ 23.
Definition ModeSetgid : Z := 2 ^ 22.
Definition ModeCharDevice : Z := 2 ^ 21.
Definition ModeSticky : Z := 2 ^ 20.
Definition ModePerm : Z := 511.

(** [mode&flag != 0]. *)
Definition modeHas (mode flag : Z) : bool := negb (Z.land mode flag =? 0).

(** The [switch] of lines 466 to 483: the colour and the letter of the
    file type. *)
Definition typeCell (mode : Z) : list attribute * string :=
  if modeHas mode ModeDir then ([FgCyan; Bold], "d"%string)
  else if modeHas mode ModeSymlink then ([FgMagenta; Bold], "l"%string)
  else if modeHas mode ModeDevice then
    if modeHas mode ModeCharDevice
    then ([FgYellow; Bold], "c"%string)
    else ([FgYellow; Bold], "b"%string)
  else if modeHas mode ModeNamedPipe then ([FgYellow; Bold], "p"%string)
  else if modeHas mode ModeSocket then ([FgYellow; Bold], "s"%string)
  else ([FgCyan], "-"%string).

(** The body of the loop of lines 485 to 526 at [i]: what it writes, if
    anything. *)
Definition permCell (mode : Z) (i : Z) : option (list attribute * string) :=
  let perm := Z.land mode ModePerm in
  let bit := Z.land (Z.shiftr perm i) 1 in
  let k := Z.rem (8 - i) 3 in
  if k =? 0 then
    if bit =? 1 then Some ([FgGreen; Bold], "r"%string)
    else Some ([FgHiBlack], "-"%string)
  else if k =? 1 then
    if bit =? 1 then Some ([FgYellow; Bold], "w"%string)
    else Some ([FgHiBlack], "-"%string)
  else if k =? 2 then
    if bit =? 1 then
      if modeHas mode ModeSetuid then Some ([FgMagenta; Bold], "s"%string)
      else if modeHas mode ModeSetgid then Some ([FgMagenta; Bold], "s"%string)
      else if modeHas mode ModeSticky then Some ([FgRed; Bold], "t"%string)
      else Some ([FgRed; Bold], "x"%string)
    else Some ([FgHiBlack], "-"%string)
  else None.

Section Formatters.

Variable sprint : list attribute -> string -> string.

Definition paint (cell : list attribute * string) : string :=
  sprint (fst cell) (snd cell).

(** [result.WriteString(c.Sprint(..))] on the builder [acc]. *)
Definition writeCell (acc : string) (cell : option (list attribute * string))
    : string :=
  match cell with
  | Some c => (acc ++ paint c)%string
  | None => acc
  end.

Definition formatPermissions (mode : Z) : string :=
  fold_left (fun acc i => writeCell acc (permCell mode i))
    [8; 7; 6; 5; 4; 3; 2; 1; 0]
    (writeCell EmptyString (Some (typeCell mode))).

(** ** [formatGitStatus] *)

(** [strings.Contains]. *)
Fixpoint stringsContains (s substr : string) : bool :=
  String.prefix substr s
  || match s with
     | EmptyString => false
     | String _ s' => stringsContains s' substr
     end.

Definition formatGitStatus (status : string) : string :=
  if String.eqb status "" then EmptyString
  else if String.eqb status "(clean)" then sprint [FgGreen] status
  else if stringsContains status "+" then sprint [FgGreen; Bold] status
  else sprint [FgYellow] status.

(** ** [formatName] *)

(** [FileInfo]; [Mode] holds the bits of an [fs.FileMode] and [ModTime]
    is an instant on the time line. *)
Record FileInfo : Type := mkFile {
  Name : string;
  Path : string;
  Size : Z;
  Mode : Z;
  ModTime : Z;
  IsDir : bool;
  IsHidden : bool;
  GitStatus : string
}.

(** [strings.ToLower(filepath.Ext(name))]. *)
Variable lowerExt : string -> string.

Definition inExts (ext : string) (exts : list string) : bool :=
  existsb (String.eqb ext) exts.

Definition formatName (file : FileInfo) : string :=
  let name := Name file in
  if IsDir file then sprint [FgBlue; Bold] name
  else if negb (Z.land (Z.land (Mode file) ModePerm) 73 =? 0)
  then sprint [FgRed] name
  else if IsHidden file then sprint [FgYellow] name
  else
    let ext := lowerExt name in
    if inExts ext [".go"; ".rs"; ".py"; ".js"; ".ts"; ".jsx"; ".tsx"]%string
    then sprint [FgGreen] name
    else if inExts ext [".md"; ".txt"; ".rst"]%string
    then sprint [FgYellow] name
    else if inExts ext [".yml"; ".yaml"; ".json"; ".toml"; ".ini"]%string
    then sprint [FgMagenta] name
    else sprint [FgWhite] name.

End Formatters.

(** ** [getGitStatus] *)

(** [git.StatusCode] of [go-git]. *)
Inductive StatusCode : Type :=
| Unmodified | Untracked | Modified | Added | Deleted | Renamed | Copied
| UpdatedButUnmerged.

Definition isCode (a b : StatusCode) : bool :=
  match a, b with
  | Unmodified, Unmodified | Untracked, Untracked | Modified, Modified
  | Added, Added | Deleted, Deleted | Renamed, Renamed | Copied, Copied
  | UpdatedButUnmerged, UpdatedButUnmerged => true
  | _, _ => false
  end.

(** [%d] of [fmt.Sprintf]. *)
Definition fmtD (z : Z) : string :=
  DecimalString.NilZero.string_of_int (Z.to_int z).

(** Lines 168 to 188, on the worktree and staging codes of the file. *)
Definition statusText (worktree staging : StatusCode) : string :=
  if isCode worktree Unmodified && isCode staging Unmodified
  then "(clean)"%string
  else
    let added := 0 in
    let deleted := 0 in
    let added :=
      if isCode worktree Added || isCode staging Added
      then GoInt.add added 1 else added in
    let deleted :=
      if isCode worktree Deleted || isCode staging Deleted
      then GoInt.add deleted 1 else deleted in
    let added :=
      if isCode worktree Modified || isCode staging Modified
      then GoInt.add added 1 else added in
    if (0 <? added) || (0 <? deleted)
    then ("+" ++ fmtD added ++ " -" ++ fmtD deleted)%string
    else EmptyString.

(** [getGitStatus], on what the repository reports for the file: [None]
    when opening the repository, its worktree, the relative path or the
    status fails. *)
Definition getGitStatus (probe : option (StatusCode * StatusCode)) : string :=
  match probe with
  | None => EmptyString
  | Some (worktree, staging) => statusText worktree staging
  end.

(** ** [sortFiles] *)

Record Config : Type := mkConfig {
  SortModified : bool;
  Reverse : bool;
  ShowGit : bool
}.

(** [strings.Compare]. *)
Definition stringsCompare (a b : string) : Z :=
  match String.compare a b with
  | Lt => -1
  | Eq => 0
  | Gt => 1
  end.

Section SortFiles.

(** [strings.ToLower]. *)
Variable toLower : string -> string.

(** The [less] closures handed to [sort.Slice], on the two elements
    [files[i]] and [files[j]]. *)
Definition lessFiles (config : Config) (a b : FileInfo) : bool :=
  if SortModified config then
    if Reverse config
    then ModTime a <? ModTime b
    else ModTime b <? ModTime a
  else
    if negb (Bool.eqb (IsDir a) (IsDir b)) then IsDir a
    else
      let result := stringsCompare (toLower (Name a)) (toLower (Name b)) in
      if Reverse config then 0 <? result else result <? 0.

End SortFiles.

(** ** Painted cells, in the order they are written *)

Fixpoint plainAll (cells : list (option (list attribute * string))) : string :=
  match cells with
  | [] => EmptyString
  | Some c :: rest => (snd c ++ plainAll rest)%string
  | None :: rest => plainAll rest
  end.

Fixpoint paintAll (sprint : list attribute -> string -> string)
    (cells : list (option (list attribute * string))) : string :=
  match cells with
  | [] => EmptyString
  | cell :: rest => (writeCell sprint EmptyString cell ++ paintAll sprint rest)%string
  end.

(** The cells of [formatPermissions], file type first. *)
Definition permissionCells (mode : Z) : list (option (list attribute * string)) :=
  Some (typeCell mode) :: map (permCell mode) [8; 7; 6; 5; 4; 3; 2; 1; 0].

(** ** [printTable] from the files *)

Section Listing.

Variable sprint : list attribute -> string -> string.
Variable lowerExt : string -> string.
Variable sprintfBytes : Z -> string.
Variable sprintfUnit : Z -> Z -> string -> string.

(** [formatModified(file.ModTime, now)]; its numbers go through
    [float64]. *)
Variable formatModified : Z -> Z -> string.

(** Lines 251 to 259: the cells of one file. [formatSize] may panic. *)
Definition tableRow (now : Z) (file : FileInfo) : option fileRow :=
  size ← formatSize sprintfBytes sprintfUnit
            (sprint [FgCyan]) (sprint [FgHiWhite]) (Size file) (IsDir file);
  Some (mkRow (formatName sprint lowerExt file)
              size
              (formatModified (ModTime file) now)
              (formatPermissions sprint (Mode file))
              (formatGitStatus sprint (GitStatus file))).

(** [printTable(files, now, config)], with the value of
    [getTerminalWidth()] as an argument: the rows in the order of the files,
    then the layout. *)
Definition printListing (files : list FileInfo) (now : Z) (config : Config)
    (terminal : Z) : option outcome :=
  rows ← mapM (tableRow now) files;
  printTable (ShowGit config) rows terminal.

End Listing.

(** * Properties *)

(** ** Machine integers: no wrap inside the range *)

Lemma wrap_inRange (z : Z) : GoInt.inRange z -> GoInt.wrap z = z.
Proof.
  unfold GoInt.inRange, GoInt.minInt, GoInt.maxInt, GoInt.wrap. intros Hz.
  rewrite Z.mod_small; lia.
Qed.

Lemma add_exact (a b : Z) : GoInt.inRange (a + b) -> GoInt.add a b = a + b.
Proof. apply wrap_inRange. Qed.

Lemma sub_exact (a b : Z) : GoInt.inRange (a - b) -> GoInt.sub a b = a - b.
Proof. apply wrap_inRange. Qed.

Lemma mul_exact (a b : Z) : GoInt.inRange (a * b) -> GoInt.mul a b = a * b.
Proof. apply wrap_inRange. Qed.

Lemma quo_exact (a b : Z) :
  0 <= a -> 0 < b -> GoInt.inRange a -> GoInt.quo a b = Some (a / b).
Proof.
  intros Ha Hb Hr. unfold GoInt.quo.
  destruct (Z.eqb_spec b 0) as [->|_]; [lia|].
  rewrite Z.quot_div_nonneg by lia.
  rewrite wrap_inRange; [reflexivity|].
  unfold GoInt.inRange, GoInt.minInt, GoInt.maxInt in *.
  assert (0 <= a / b) by (apply Z.div_pos; lia).
  assert (a / b <= a) by (apply Z.div_le_upper_bound; nia).
  lia.
Qed.

(** Range side conditions of the exactness lemmas. *)
Ltac in_range :=
  unfold GoInt.inRange, GoInt.minInt, GoInt.maxInt in *; lia.

(** ** Loops: an invariant carried through [forFrom] *)

Lemma forFrom_invariant {S : Type} (body : nat -> S -> option S)
    (Inv : nat -> S -> Prop) (n : nat) :
  forall (i : nat) (s : S),
    Inv i s ->
    (forall k t, (i <= k < i + n)%nat -> Inv k t ->
       exists t', body k t = Some t' /\ Inv (Datatypes.S k) t') ->
    exists t, forFrom body i n s = Some t /\ Inv (i + n)%nat t.
Proof.
  induction n as [|n IH]; intros i s Hi Hstep.
  - exists s. rewrite Nat.add_0_r. split; [reflexivity | exact Hi].
  - destruct (Hstep i s ltac:(lia) Hi) as (s' & Hb & Hi').
    destruct (IH (Datatypes.S i) s' Hi') as (t & Ht & Hinv).
    { intros k t Hk. apply Hstep. lia. }
    exists t. cbn [forFrom]. rewrite Hb.
    replace (i + Datatypes.S n)%nat with (Datatypes.S i + n)%nat by lia.
    split; assumption.
Qed.

(** ** Text measurer *)

Lemma RuneCount_bounds_le (n : nat) (s : string) :
  (String.length s <= n)%nat ->
  0 <= RuneCountInString s <= Z.of_nat (String.length s).
Proof.
  revert s. induction n as [|n IH]; intros s Hlen.
  - destruct s; simpl in *; lia.
  - destruct s as [|c r1]; [simpl; lia|].
    cbn [RuneCountInString].
    repeat case_match; subst;
      match goal with
      | |- context [RuneCountInString ?t] =>
          let H := fresh in
          assert (H : (String.length t <= n)%nat) by (simpl in *; lia);
          apply IH in H; simpl in *; lia
      end.
Qed.

Lemma RuneCount_bounds (s : string) :
  0 <= RuneCountInString s <= Z.of_nat (String.length s).
Proof. apply (RuneCount_bounds_le (String.length s)). lia. Qed.

(** After [ESC] and ['['] the scan resumes behind the first letter. *)
Lemma stripANSI_bracket (t : string) :
  stripANSI (String ESC (String "["%char t)) = stripANSI (afterTerminator t).
Proof.
  cbn [stripANSI]. change (isEsc ESC) with true.
  change (isBracket "["%char) with true. cbv iota.
  induction t as [|d t' IH]; [reflexivity|].
  cbn [afterTerminator]. destruct (isLetter d); [reflexivity | exact IH].
Qed.

Lemma stripANSI_lone_escape (rest : string) :
  startsWithBracket rest = false ->
  stripANSI (String ESC rest) = stripANSI rest.
Proof.
  intros Hb. cbn [stripANSI]. change (isEsc ESC) with true. cbv iota.
  destruct rest as [|b rest']; [reflexivity|].
  cbn [startsWithBracket] in Hb. rewrite Hb. reflexivity.
Qed.

Lemma afterTerminator_no_letter (t : string) :
  hasLetter t = false -> afterTerminator t = EmptyString.
Proof.
  induction t as [|d t' IH]; [reflexivity|].
  cbn [hasLetter afterTerminator]. intros H.
  apply orb_false_iff in H as [Hd Ht]. rewrite Hd. auto.
Qed.

Lemma afterTerminator_length (t : string) :
  (String.length (afterTerminator t) <= String.length t)%nat.
Proof.
  induction t as [|d t' IH]; [simpl; lia|].
  cbn [afterTerminator]. destruct (isLetter d); simpl; lia.
Qed.

Lemma stripANSI_length_le (n : nat) (s : string) :
  (String.length s <= n)%nat ->
  (String.length (stripANSI s) <= String.length s)%nat.
Proof.
  revert s. induction n as [|n IH]; intros s Hlen.
  - destruct s; simpl in *; lia.
  - destruct s as [|c rest]; [simpl; lia|].
    destruct (isEsc c) eqn:Hc.
    + assert (c = ESC) as ->.
      { unfold isEsc, byteVal in Hc. apply Z.eqb_eq in Hc.
        rewrite <- (ascii_N_embedding c).
        replace (N_of_ascii c) with 27%N by lia. reflexivity. }
      destruct rest as [|b rest']; [simpl; lia|].
      destruct (isBracket b) eqn:Hb.
      * assert (b = "["%char) as ->.
        { unfold isBracket, byteVal in Hb. apply Z.eqb_eq in Hb.
          rewrite <- (ascii_N_embedding b).
          replace (N_of_ascii b) with 91%N by lia. reflexivity. }
        rewrite stripANSI_bracket.
        pose proof (afterTerminator_length rest') as Ha.
        assert (H : (String.length (afterTerminator rest') <= n)%nat)
          by (simpl in *; lia).
        apply IH in H. simpl in *. lia.
      * rewrite stripANSI_lone_escape by exact Hb.
        assert (H : (String.length (String b rest') <= n)%nat)
          by (simpl in *; lia).
        apply IH in H. simpl in *. lia.
    + cbn [stripANSI]. rewrite Hc.
      assert (H : (String.length rest <= n)%nat) by (simpl in *; lia).
      apply IH in H. simpl in *. lia.
Qed.

Lemma stripANSI_length (s : string) :
  (String.length (stripANSI s) <= String.length s)%nat.
Proof. apply (stripANSI_length_le (String.length s)). lia. Qed.

Lemma measure_nonneg (s : string) : 0 <= measure s.
Proof. unfold measure. apply RuneCount_bounds. Qed.

Lemma measure_le_length (s : string) :
  measure s <= Z.of_nat (String.length s).
Proof.
  unfold measure. pose proof (RuneCount_bounds (stripANSI s)).
  pose proof (stripANSI_length s). lia.
Qed.

(** The escape marker itself is never counted. *)
Lemma measure_escape_le (rest : string) :
  measure (String ESC rest) <= Z.of_nat (String.length rest).
Proof.
  destruct (startsWithBracket rest) eqn:Hb.
  - destruct rest as [|b rest']; [discriminate|].
    cbn [startsWithBracket] in Hb.
    assert (b = "["%char) as ->.
    { unfold isBracket, byteVal in Hb. apply Z.eqb_eq in Hb.
      rewrite <- (ascii_N_embedding b).
      replace (N_of_ascii b) with 91%N by lia. reflexivity. }
    unfold measure. rewrite stripANSI_bracket.
    pose proof (measure_le_length (afterTerminator rest')) as H1.
    pose proof (afterTerminator_length rest') as H2.
    unfold measure in H1. simpl. lia.
  - unfold measure. rewrite stripANSI_lone_escape by exact Hb.
    apply measure_le_length.
Qed.

(** C5, as amended: the styled input of [TestStripANSI] and the plain string
    "Red Text" have the same display width, and that width is 8, the number
    of characters of "Red Text". *)
Theorem measure_red_text :
  stripANSI redStyled = "Red Text"%string
  /\ measure redStyled = measure "Red Text"%string
  /\ measure "Red Text"%string = 8.
Proof. repeat split; vm_compute; reflexivity. Qed.

(** C5 as stated fails: the two widths are not 9. *)
Lemma red_text_width_not_9 :
  ~ (measure redStyled = measure "Red Text"%string
     /\ measure "Red Text"%string = 9).
Proof. intros [_ H]. vm_compute in H. discriminate H. Qed.

Lemma string_app_nil (t : string) : (t ++ "")%string = t.
Proof. induction t as [|c t IH]; [reflexivity|]. cbn. rewrite IH. reflexivity. Qed.

Lemma string_length_app (a b : string) :
  String.length (a ++ b) = (String.length a + String.length b)%nat.
Proof. induction a as [|c a IH]; [reflexivity|]. cbn. rewrite IH. reflexivity. Qed.

(** An ordinary byte is written and the scan moves on by one. *)
Lemma stripANSI_keep (c : ascii) (rest : string) :
  isEsc c = false -> stripANSI (String c rest) = String c (stripANSI rest).
Proof. intros Hc. cbn [stripANSI]. rewrite Hc. reflexivity. Qed.

Lemma stripANSI_app_no_escape (s rest : string) :
  noEsc s = true -> stripANSI (s ++ rest) = (s ++ stripANSI rest)%string.
Proof.
  induction s as [|c s IH]; [reflexivity|].
  cbn [noEsc]. intros H. apply andb_true_iff in H as [Hc Hs].
  apply negb_true_iff in Hc.
  change (String c s ++ rest)%string with (String c (s ++ rest)).
  rewrite stripANSI_keep by exact Hc. rewrite IH by exact Hs. reflexivity.
Qed.

(** What is written from an escape marker on is no longer than what
    follows the marker. *)
Lemma stripANSI_escape_length (rest : string) :
  (String.length (stripANSI (String ESC rest)) <= String.length rest)%nat.
Proof.
  destruct (startsWithBracket rest) eqn:Hb.
  - destruct rest as [|b rest']; [discriminate|].
    cbn [startsWithBracket] in Hb.
    assert (b = "["%char) as ->.
    { unfold isBracket, byteVal in Hb. apply Z.eqb_eq in Hb.
      rewrite <- (ascii_N_embedding b).
      replace (N_of_ascii b) with 91%N by lia. reflexivity. }
    rewrite stripANSI_bracket.
    pose proof (stripANSI_length (afterTerminator rest')) as H1.
    pose proof (afterTerminator_length rest') as H2.
    simpl. lia.
  - rewrite stripANSI_lone_escape by exact Hb. apply stripANSI_length.
Qed.

(** C4, as amended: in every input string, written as a prefix [pre]
    without escape marker, the first marker, and what follows it, the prefix
    is kept and the marker is always dropped. When no bracket follows the
    marker it is dropped on its own and the scan resumes at the next byte;
    when a bracket follows, everything up to and including the first letter
    is dropped with it, and everything up to the end of the string when no
    letter occurs. The marker is never counted, and the measurer is total
    with a width between 0 and the number of bytes other than the marker. *)
Theorem stripANSI_unrecognized_escape (pre rest : string) :
  noEsc pre = true ->
  (startsWithBracket rest = false ->
     stripANSI (pre ++ String ESC rest) = (pre ++ stripANSI rest)%string)
  /\ stripANSI (pre ++ String ESC (String "["%char rest))
     = (pre ++ stripANSI (afterTerminator rest))%string
  /\ (hasLetter rest = false ->
        stripANSI (pre ++ String ESC (String "["%char rest)) = pre)
  /\ 0 <= measure (pre ++ String ESC rest)
       <= Z.of_nat (String.length pre + String.length rest).
Proof.
  intros Hpre. split.
  { intros Hb. rewrite stripANSI_app_no_escape by exact Hpre.
    rewrite stripANSI_lone_escape by exact Hb. reflexivity. }
  split.
  { rewrite stripANSI_app_no_escape by exact Hpre.
    rewrite stripANSI_bracket. reflexivity. }
  split.
  { intros Hl. rewrite stripANSI_app_no_escape by exact Hpre.
    rewrite stripANSI_bracket, afterTerminator_no_letter by exact Hl.
    cbn [stripANSI]. apply string_app_nil. }
  split; [apply measure_nonneg|].
  unfold measure. rewrite stripANSI_app_no_escape by exact Hpre.
  pose proof (RuneCount_bounds (pre ++ stripANSI (String ESC rest))) as Hr.
  rewrite string_length_app in Hr.
  pose proof (stripANSI_escape_length rest) as He. lia.
Qed.

Lemma stripANSI_unrecognized_escape_witness :
  stripANSI ("a" ++ String ESC "B") = "aB"%string
  /\ stripANSI ("ab" ++ String ESC "[12;34") = "ab"%string
  /\ measure ("a" ++ String ESC "B") <= 2.
Proof.
  split; [|split].
  - exact (proj1 (stripANSI_unrecognized_escape "a" "B" eq_refl) eq_refl).
  - exact (proj1 (proj2 (proj2
             (stripANSI_unrecognized_escape "ab" "12;34" eq_refl))) eq_refl).
  - exact (proj2 (proj2 (proj2 (proj2
             (stripANSI_unrecognized_escape "a" "B" eq_refl))))).
Defined.

(** C4 as stated fails: a marker without a recognised tail is not kept, and
    an unterminated sequence eats what follows it. *)
Lemma stripANSI_escape_not_kept :
  recognizedTail "AB" = false
  /\ stripANSI (String ESC "AB") <> String ESC (stripANSI "AB")
  /\ measure (String ESC "AB") <> 1 + measure "AB"
  /\ recognizedTail "[12;34" = false
  /\ stripANSI (String ESC "[12;34") <> String ESC (stripANSI "[12;34").
Proof. repeat split; vm_compute; discriminate. Qed.

(** ** Loops that update one slot per turn *)

Lemma forFrom_pointwise {A : Type} (body : nat -> list A -> option (list A))
    (g : nat -> A -> A) (n : nat) (ws : list A) :
  (n <= length ws)%nat ->
  (forall k l x, (k < n)%nat -> l !! k = Some x ->
     body k l = Some (<[k := g k x]> l)) ->
  exists ws', forFrom body 0 n ws = Some ws'
    /\ length ws' = length ws
    /\ forall j, ws' !! j
         = if decide (j < n)%nat then g j <$> ws !! j else ws !! j.
Proof.
  intros Hn Hbody.
  destruct (forFrom_invariant body
    (fun k t => length t = length ws
       /\ forall j, t !! j
            = if decide (j < k)%nat then g j <$> ws !! j else ws !! j)
    n 0%nat ws) as (t & Ht & Hlen & Hlk).
  - split; [reflexivity|]. intros j. case_decide; [lia | reflexivity].
  - intros k t Hk [Hlen Hlk].
    destruct (lookup_lt_is_Some_2 ws k ltac:(lia)) as [x Hx].
    assert (Htk : t !! k = Some x).
    { rewrite Hlk. case_decide; [lia | exact Hx]. }
    exists (<[k := g k x]> t). split; [apply Hbody; [lia | exact Htk]|].
    split; [rewrite length_insert; exact Hlen|].
    intros j. destruct (decide (j = k)) as [->|Hne].
    + rewrite list_lookup_insert_eq by lia.
      case_decide; [|lia]. rewrite Hx. reflexivity.
    + rewrite list_lookup_insert_ne by congruence. rewrite Hlk.
      repeat case_decide; try lia; reflexivity.
  - exists t. auto.
Qed.

(** ** Width calculator *)

Lemma cellStep_update (row : list string) (j : nat) (ws : list Z) (cur : Z) :
  (j < length row)%nat -> ws !! j = Some cur ->
  cellStep row j ws = Some (<[j := cellMax row j cur]> ws).
Proof.
  intros Hj Hcur. unfold cellStep, cellMax.
  destruct (lookup_lt_is_Some_2 row j Hj) as [cell Hcell].
  rewrite Hcell, Hcur. cbn.
  destruct (Z.ltb_spec cur (measure cell)) as [Hlt|Hge].
  - rewrite Z.max_r by lia. reflexivity.
  - rewrite Z.max_l by lia. rewrite list_insert_id by exact Hcur. reflexivity.
Qed.

Lemma rowStep_update (data : list (list string)) (cols i : nat)
    (row : list string) (ws : list Z) :
  data !! i = Some row -> length row = cols -> length ws = cols ->
  exists ws', rowStep data cols i ws = Some ws'
    /\ length ws' = cols
    /\ forall j cell cur, row !! j = Some cell -> ws !! j = Some cur ->
         ws' !! j = Some (Z.max cur (measure cell)).
Proof.
  intros Hrow Hlen Hws. unfold rowStep, forRange. rewrite Hrow. cbn.
  destruct (forFrom_pointwise (cellStep row) (cellMax row) cols ws)
    as (ws' & Hrun & Hlen' & Hlk).
  - lia.
  - intros k l x Hk Hx. apply cellStep_update; [lia | exact Hx].
  - exists ws'. split; [exact Hrun|]. split; [lia|].
    intros j cell cur Hcell Hcur. rewrite Hlk.
    apply lookup_lt_Some in Hcell as Hj.
    case_decide; [|lia]. rewrite Hcur. cbn. unfold cellMax.
    rewrite Hcell. reflexivity.
Qed.

(** What the row loop of [calculateDisplayWidths] has established after
    [i] rows. *)
Lemma rows_invariant (data : list (list string)) (cols : nat) :
  Forall (fun row => length row = cols) data ->
  exists ws,
    forFrom (rowStep data cols) 0 (length data) (replicate cols 0) = Some ws
    /\ length ws = cols
    /\ forall j, (j < cols)%nat ->
         exists v, ws !! j = Some v
           /\ (forall i row cell, data !! i = Some row ->
                 row !! j = Some cell -> measure cell <= v)
           /\ ((data = [] /\ v = 0)
               \/ exists i row cell, data !! i = Some row
                    /\ row !! j = Some cell /\ measure cell = v).
Proof.
  intros Hrect.
  destruct (forFrom_invariant (rowStep data cols)
    (fun k t => length t = cols
       /\ forall j, (j < cols)%nat ->
            exists v, t !! j = Some v
              /\ (forall i row cell, (i < k)%nat -> data !! i = Some row ->
                    row !! j = Some cell -> measure cell <= v)
              /\ ((k = 0%nat /\ v = 0)
                  \/ exists i row cell, (i < k)%nat /\ data !! i = Some row
                       /\ row !! j = Some cell /\ measure cell = v))
    (length data) 0%nat (replicate cols 0)) as (t & Ht & Hlen & Hinv).
  - split; [apply length_replicate|]. intros j Hj. exists 0.
    split; [apply lookup_replicate_2; exact Hj|].
    split; [intros; lia | left; auto].
  - intros k t Hk [Hlen Hinv].
    destruct (lookup_lt_is_Some_2 data k ltac:(lia)) as [row Hrow].
    assert (Hrl : length row = cols).
    { rewrite Forall_lookup in Hrect. exact (Hrect k row Hrow). }
    destruct (rowStep_update data cols k row t Hrow Hrl Hlen)
      as (t' & Hstep & Hlen' & Hupd).
    exists t'. split; [exact Hstep|]. split; [exact Hlen'|].
    intros j Hj. destruct (Hinv j Hj) as (v & Hv & Hub & Hatt).
    destruct (lookup_lt_is_Some_2 row j ltac:(lia)) as [cell Hcell].
    exists (Z.max v (measure cell)).
    split; [exact (Hupd j cell v Hcell Hv)|]. split.
    + intros i row' cell' Hi Hrow' Hcell'.
      destruct (decide (i = k)) as [->|Hne].
      * assert (row' = row) by congruence. subst row'.
        assert (cell' = cell) by congruence. subst cell'. lia.
      * pose proof (Hub i row' cell' ltac:(lia) Hrow' Hcell'). lia.
    + right. pose proof (measure_nonneg cell) as Hnn.
      destruct (Z.le_gt_cases v (measure cell)) as [Hle|Hgt].
      * exists k, row, cell. repeat split; try assumption; lia.
      * destruct Hatt as [[_ ->]|(i & row' & cell' & Hi & Hr & Hc & Hm)].
        { lia. }
        exists i, row', cell'. repeat split; try assumption; lia.
  - exists t. split; [exact Ht|]. split; [exact Hlen|].
    intros j Hj. destruct (Hinv j Hj) as (v & Hv & Hub & Hatt).
    exists v. split; [exact Hv|]. split.
    + intros i row cell Hrow Hcell.
      apply (Hub i row cell); try assumption.
      apply lookup_lt_Some in Hrow. lia.
    + destruct Hatt as [[Hz ->]|(i & row & cell & _ & Hr & Hc & Hm)].
      * left. split; [|reflexivity].
        destruct data; [reflexivity | simpl in Hz; lia].
      * right. exists i, row, cell. auto.
Qed.

(** C7: on a grid whose rows all have the header's column count,
    [calculateDisplayWidths] returns one width per column, and the width of
    column [j] is the maximum of the measured widths of the cells of that
    column, header included: no cell of the column is wider, and some cell
    of the column has exactly that width. On the empty grid it returns the
    empty sequence. *)
Theorem calculateDisplayWidths_column_max :
  calculateDisplayWidths [] = Some []
  /\ forall data : list (list string),
       data <> [] -> rectangular data ->
       exists ws, calculateDisplayWidths data = Some ws
         /\ length ws = columnCount data
         /\ forall j, (j < columnCount data)%nat ->
              exists v, ws !! j = Some v
                /\ (forall row cell, row ∈ data -> row !! j = Some cell ->
                      measure cell <= v)
                /\ (exists row cell, row ∈ data /\ row !! j = Some cell
                      /\ measure cell = v).
Proof.
  split; [reflexivity|]. intros data Hne Hrect.
  destruct (rows_invariant data (columnCount data) Hrect)
    as (ws & Hrun & Hlen & Hcols).
  exists ws. split.
  { destruct data as [|header rows]; [congruence|]. exact Hrun. }
  split; [exact Hlen|]. intros j Hj.
  destruct (Hcols j Hj) as (v & Hv & Hub & Hatt).
  exists v. split; [exact Hv|]. split.
  - intros row cell Hin Hcell.
    apply list_elem_of_lookup in Hin as [i Hi]. exact (Hub i row cell Hi Hcell).
  - destruct Hatt as [[-> _]|(i & row & cell & Hr & Hc & Hm)]; [congruence|].
    exists row, cell. split; [|auto].
    apply list_elem_of_lookup. exists i. exact Hr.
Qed.

Lemma calculateDisplayWidths_column_max_witness :
  exists ws,
    calculateDisplayWidths
      [["Name"; "Size"]; ["file.txt"; "1.2 KB"]; [redStyled; "15.3 KB"]]%string
      = Some ws
    /\ length ws = 2%nat.
Proof.
  destruct (proj2 calculateDisplayWidths_column_max
    [["Name"; "Size"]; ["file.txt"; "1.2 KB"]; [redStyled; "15.3 KB"]]%string)
    as (ws & Hws & Hlen & _).
  - discriminate.
  - repeat constructor.
  - exists ws. split; [exact Hws | exact Hlen].
Defined.

(** ** Constraint resolver *)

Lemma clampStep_update (mins maxs : list Z) (i : nat) (ws : list Z) (w : Z) :
  ws !! i = Some w ->
  clampStep mins maxs i ws = Some (<[i := clampVal mins maxs i w]> ws).
Proof.
  intros Hw. apply lookup_lt_Some in Hw as Hi.
  unfold clampStep, clampVal. rewrite Hw. cbn.
  destruct (mins !! i) as [m|]; [destruct ((0 <? m) && (w <? m))|];
    rewrite ?list_lookup_insert_eq, ?Hw by lia; cbn;
    (destruct (maxs !! i) as [M|]; [destruct ((0 <? M) && (M <? _))|]);
    rewrite ?list_insert_insert_eq; try reflexivity;
    rewrite list_insert_id by exact Hw; reflexivity.
Qed.

Lemma clamp_lookup (mins maxs : list Z) (ws : list Z) :
  exists ws', clamp mins maxs ws = Some ws'
    /\ length ws' = length ws
    /\ forall i, ws' !! i = clampVal mins maxs i <$> ws !! i.
Proof.
  destruct (forFrom_pointwise (clampStep mins maxs) (clampVal mins maxs)
              (length ws) ws) as (ws' & Hrun & Hlen & Hlk).
  - lia.
  - intros k l x _ Hx. apply clampStep_update. exact Hx.
  - exists ws'. split; [exact Hrun|]. split; [exact Hlen|].
    intros i. rewrite Hlk. case_decide as Hi; [reflexivity|].
    rewrite (lookup_ge_None_2 ws i) by lia. reflexivity.
Qed.

Lemma clampVal_min (mins maxs : list Z) (i : nat) (w m : Z) :
  mins !! i = Some m -> 0 < m ->
  (forall M, maxs !! i = Some M -> 0 < M -> m <= M) ->
  m <= clampVal mins maxs i w.
Proof.
  intros Hm Hpos Hmax. unfold clampVal. rewrite Hm.
  destruct (maxs !! i) as [M|].
  - specialize (Hmax M eq_refl).
    destruct (Z.ltb_spec 0 m), (Z.ltb_spec w m), (Z.ltb_spec 0 M); cbn;
      repeat case_match; lia.
  - destruct (Z.ltb_spec 0 m), (Z.ltb_spec w m); cbn; lia.
Qed.

Lemma clampVal_conflict (mins maxs : list Z) (i : nat) (w m M : Z) :
  mins !! i = Some m -> maxs !! i = Some M -> 0 < M -> M < m ->
  clampVal mins maxs i w = M.
Proof.
  intros Hm HM Hpos Hlt. unfold clampVal. rewrite Hm, HM.
  destruct (Z.ltb_spec 0 m), (Z.ltb_spec w m), (Z.ltb_spec 0 M); cbn;
    repeat case_match; lia.
Qed.

(** C3, as amended: the clamp applies the minimum first and the maximum
    after it. For a column with a declared minimum, the clamped width is at
    least that minimum whenever the column's declared maximum does not lie
    below it; when the declared maximum is below the minimum, the clamped
    width is the maximum. *)
Theorem clamp_minimum_unless_maximum_below
    (mins maxs ws : list Z) (i : nat) (w m : Z) :
  ws !! i = Some w -> mins !! i = Some m -> 0 < m ->
  exists ws' w', clamp mins maxs ws = Some ws'
    /\ ws' !! i = Some w'
    /\ ((forall M, maxs !! i = Some M -> 0 < M -> m <= M) -> m <= w')
    /\ (forall M, maxs !! i = Some M -> 0 < M -> M < m -> w' = M).
Proof.
  intros Hw Hm Hpos.
  destruct (clamp_lookup mins maxs ws) as (ws' & Hrun & _ & Hlk).
  exists ws', (clampVal mins maxs i w).
  split; [exact Hrun|]. split; [rewrite Hlk, Hw; reflexivity|]. split.
  - intros Hmax. apply (clampVal_min mins maxs i w m); assumption.
  - intros M HM HMpos Hlt. apply (clampVal_conflict mins maxs i w m M); assumption.
Qed.

Lemma clamp_minimum_unless_maximum_below_witness :
  exists ws' w',
    clamp [15; 6; 10; 10] [50; 10; 15; 12] [3; 20; 3; 3] = Some ws'
    /\ ws' !! 0%nat = Some w' /\ 15 <= w'.
Proof.
  destruct (clamp_minimum_unless_maximum_below
              [15; 6; 10; 10] [50; 10; 15; 12] [3; 20; 3; 3] 0%nat 3 15
              eq_refl eq_refl ltac:(lia))
    as (ws' & w' & Hrun & Hlk & Hmin & _).
  exists ws', w'. split; [exact Hrun|]. split; [exact Hlk|].
  apply Hmin. intros M HM _. injection HM as <-. lia.
Defined.

(** C3 as stated fails: with minimum 10 and maximum 5 a column of natural
    width 3 is clamped to 5, below its minimum. *)
Lemma clamp_below_minimum :
  clamp [10] [5] [3] = Some [5]
  /\ clamp [10] [5] [3] <> Some [10]
  /\ ~ (10 <= 5).
Proof.
  split; [vm_compute; reflexivity|].
  split; [vm_compute; discriminate | lia].
Qed.

(** ** Sums and overheads without wrap *)

Lemma sumZ_nonneg (ws : list Z) : Forall (fun w => 0 <= w) ws -> 0 <= sumZ ws.
Proof. induction 1; simpl; lia. Qed.

Lemma sumZ_insert (ws : list Z) (i : nat) (w v : Z) :
  ws !! i = Some w -> sumZ (<[i := v]> ws) = sumZ ws - w + v.
Proof.
  revert i. induction ws as [|x ws IH]; intros [|i] Hw; try discriminate.
  - injection Hw as ->. simpl. lia.
  - simpl in *. rewrite (IH i Hw). lia.
Qed.

Lemma sumZ_lookup_le (ws : list Z) (i : nat) (w : Z) :
  Forall (fun w => 0 <= w) ws -> ws !! i = Some w -> w <= sumZ ws.
Proof.
  intros Hnn. revert i. induction Hnn as [|x ws Hx Hnn IH]; intros [|i] Hw;
    try discriminate.
  - injection Hw as ->. pose proof (sumZ_nonneg ws Hnn). simpl. lia.
  - simpl in *. specialize (IH i Hw). lia.
Qed.

Lemma sum_loop_exact (ws : list Z) (i : nat) (acc : Z) :
  Forall (fun w => 0 <= w) ws -> 0 <= acc -> acc + sumZ ws <= GoInt.maxInt ->
  rangeFold (fun _ w a => GoInt.add a w) i ws acc = acc + sumZ ws.
Proof.
  intros Hnn. revert i acc.
  induction Hnn as [|x ws Hx Hnn IH]; intros i acc Hacc Hsum; simpl in *.
  - lia.
  - pose proof (sumZ_nonneg ws Hnn).
    rewrite add_exact by in_range.
    rewrite IH by lia. lia.
Qed.

Lemma borderWidth_exact (n : nat) :
  borderOverhead n <= GoInt.maxInt -> borderWidth n = borderOverhead n.
Proof.
  unfold borderWidth, borderOverhead, GoInt.maxInt. intros Hn.
  rewrite sub_exact by (unfold GoInt.inRange, GoInt.minInt, GoInt.maxInt; lia).
  rewrite mul_exact by (unfold GoInt.inRange, GoInt.minInt, GoInt.maxInt; lia).
  rewrite add_exact by (unfold GoInt.inRange, GoInt.minInt, GoInt.maxInt; lia).
  reflexivity.
Qed.

Lemma borderOverhead_lower (n : nat) : -1 <= borderOverhead n.
Proof. unfold borderOverhead. lia. Qed.

Lemma totalWidth_exact (ws : list Z) :
  Forall (fun w => 0 <= w) ws -> renderedWidth ws <= GoInt.maxInt ->
  totalWidth ws = renderedWidth ws.
Proof.
  intros Hnn Hr. unfold totalWidth, totalContentWidth, renderedWidth in *.
  pose proof (sumZ_nonneg ws Hnn) as Hs.
  pose proof (borderOverhead_lower (length ws)) as Hb.
  assert (Hsum : sumZ ws <= GoInt.maxInt).
  { destruct ws as [|x ws']; [simpl; unfold GoInt.maxInt; lia|].
    unfold borderOverhead in *. simpl length in *. lia. }
  rewrite sum_loop_exact by (try assumption; lia).
  rewrite borderWidth_exact by lia.
  rewrite add_exact; [lia|].
  unfold GoInt.inRange, GoInt.minInt, GoInt.maxInt in *. lia.
Qed.

(** ** Fit step *)

(** C8: clamped widths whose sum plus border overhead is within the
    terminal budget come back from the fit step unchanged. The widths are
    not negative and the budget is an [int]. *)
Theorem fit_unchanged_when_fitting (mins ws : list Z) (terminalWidth : Z) :
  Forall (fun w => 0 <= w) ws ->
  terminalWidth <= GoInt.maxInt ->
  renderedWidth ws <= terminalWidth ->
  fit mins terminalWidth ws = Some ws.
Proof.
  intros Hnn Htw Hfit. unfold fit.
  rewrite totalWidth_exact by (try assumption; lia).
  destruct (Z.ltb_spec terminalWidth (renderedWidth ws)); [lia | reflexivity].
Qed.

Lemma fit_unchanged_when_fitting_witness :
  fit [15; 6; 10; 10] 70 [22; 7; 14; 10] = Some [22; 7; 14; 10].
Proof.
  apply fit_unchanged_when_fitting.
  - repeat constructor; lia.
  - unfold GoInt.maxInt. lia.
  - vm_compute. discriminate.
Defined.

Lemma lookupMin_pos (mins : list Z) (i : nat) : 0 < lookupMin mins i 4.
Proof.
  unfold lookupMin. destruct (mins !! i) as [m|]; [|lia].
  destruct (Z.ltb_spec 0 m); lia.
Qed.

(** One turn of the shrink loop never fails on a slot of the slice, and
    leaves a slot it writes at or above the column's minimum: the guard of
    lines 318 to 320. *)
Lemma shrinkStep_total (mins : list Z) (i : nat) (st : shrinkState) (w : Z) :
  widths st !! i = Some w ->
  exists st', shrinkStep mins i st = Some st'
    /\ (widths st' = widths st
        \/ exists v, lookupMin mins i 4 <= v
             /\ widths st' = <[i := v]> (widths st)).
Proof.
  intros Hw. unfold shrinkStep.
  destruct (shrinkCol i); [|eauto].
  rewrite Hw. cbn.
  destruct (Z.ltb_spec 0 (GoInt.sub w (lookupMin mins i 4))) as [Hs|Hs];
    [|cbn; eauto].
  destruct (Z.ltb_spec 0 (totalShrinkable st)) as [Ht|Ht]; [|cbn; eauto].
  cbn. unfold GoInt.quo.
  destruct (Z.eqb_spec (totalShrinkable st) 0) as [Hz|_]; [lia|]. cbn.
  eexists. split; [reflexivity|]. right. cbn.
  eexists. split; [|reflexivity].
  match goal with |- _ <= (if ?c then _ else _) => destruct c eqn:Hc end;
    [lia | apply Z.ltb_ge in Hc; exact Hc].
Qed.

Lemma shrink_loop_minimum (mins ws : list Z) (e t : Z) :
  exists st,
    forRange (length ws) (shrinkStep mins) (mkShrink ws e t) = Some st
    /\ length (widths st) = length ws
    /\ forall i w, ws !! i = Some w ->
         exists w', widths st !! i = Some w'
           /\ (w' = w \/ lookupMin mins i 4 <= w').
Proof.
  destruct (forFrom_invariant (shrinkStep mins)
    (fun _ st => length (widths st) = length ws
       /\ forall i w, ws !! i = Some w ->
            exists w', widths st !! i = Some w'
              /\ (w' = w \/ lookupMin mins i 4 <= w'))
    (length ws) 0%nat (mkShrink ws e t)) as (st & Hrun & Hlen & Hinv).
  - split; [reflexivity|]. intros i w Hw. exists w. cbn. auto.
  - intros k st Hk [Hlen Hinv].
    destruct (lookup_lt_is_Some_2 (widths st) k ltac:(lia)) as [w Hw].
    destruct (shrinkStep_total mins k st w Hw) as (st' & Hstep & Hcase).
    exists st'. split; [exact Hstep|].
    destruct Hcase as [->|(v & Hv & ->)]; [auto|].
    split; [rewrite length_insert; exact Hlen|].
    intros i x Hx. destruct (decide (i = k)) as [->|Hne].
    + exists v. rewrite list_lookup_insert_eq by lia. auto.
    + rewrite list_lookup_insert_ne by congruence. apply Hinv. exact Hx.
  - exists st. auto.
Qed.

Lemma fit_minimum_aux (mins ws : list Z) (terminalWidth : Z) :
  exists ws', fit mins terminalWidth ws = Some ws'
    /\ length ws' = length ws
    /\ forall i w, ws !! i = Some w ->
         exists w', ws' !! i = Some w'
           /\ (w' = w \/ lookupMin mins i 4 <= w').
Proof.
  unfold fit. destruct (terminalWidth <? totalWidth ws).
  - destruct (shrink_loop_minimum mins ws
                (GoInt.sub (totalWidth ws) terminalWidth)
                (initialShrinkable mins ws)) as (st & Hrun & Hlen & Hinv).
    exists (widths st). rewrite Hrun. cbn. auto.
  - exists ws. split; [reflexivity|]. split; [reflexivity|].
    intros i w Hw. exists w. auto.
Qed.

(** C9, as amended: the fit step returns on every input, with one width
    per column, and the final width of a column is at least the smaller of
    its width on entry and its minimum (the declared one, or 4 where none
    is declared): a column at or above its minimum on entry is at or above
    it on exit, and a column the shrink loop does not write keeps its
    width. *)
Theorem fit_never_below_minimum (mins ws : list Z) (terminalWidth : Z) :
  exists ws', fit mins terminalWidth ws = Some ws'
    /\ length ws' = length ws
    /\ forall i w, ws !! i = Some w ->
         exists w', ws' !! i = Some w'
           /\ (w' = w \/ lookupMin mins i 4 <= w')
           /\ (lookupMin mins i 4 <= w -> lookupMin mins i 4 <= w')
           /\ Z.min w (lookupMin mins i 4) <= w'.
Proof.
  destruct (fit_minimum_aux mins ws terminalWidth) as (ws' & Hrun & Hlen & H).
  exists ws'. split; [exact Hrun|]. split; [exact Hlen|].
  intros i w Hw. destruct (H i w Hw) as (w' & Hw' & Hcase).
  exists w'. split; [exact Hw'|]. split; [exact Hcase|]. split.
  - intros Hmin. destruct Hcase as [->|Hge]; assumption.
  - destruct Hcase as [->|Hge]; lia.
Qed.

Lemma fit_never_below_minimum_witness :
  exists ws' w',
    fit [15; 6; 10; 10] 60 [22; 7; 14; 10] = Some ws'
    /\ ws' !! 0%nat = Some w' /\ 15 <= w'.
Proof.
  destruct (fit_never_below_minimum [15; 6; 10; 10] [22; 7; 14; 10] 60)
    as (ws' & Hrun & _ & H).
  destruct (H 0%nat 22 eq_refl) as (w' & Hw' & _ & Hmin & _).
  exists ws', w'. split; [exact Hrun|]. split; [exact Hw'|].
  apply Hmin. vm_compute. discriminate.
Defined.

(** C9 as stated fails: a column that enters the fit step below its
    minimum leaves it below its minimum, whether the shrink loop runs or
    not; and [layout] without constraint tables renders a column of width
    2, below the default minimum 4. *)
Lemma fit_column_below_minimum :
  fit [15; 6; 10; 10] 100 [3; 7; 14; 10] = Some [3; 7; 14; 10]
  /\ fit [15; 6; 10; 10] 40 [3; 7; 30; 10] = Some [3; 7; 10; 10]
  /\ lookupMin [15; 6; 10; 10] 0 4 = 15
  /\ layout [] [] [["ab"%string]] 100 = Some (Rendered [2])
  /\ lookupMin [] 0 4 = 4
  /\ ~ (forall (mins ws ws' : list Z) (terminalWidth : Z) (i : nat) (w' : Z),
         fit mins terminalWidth ws = Some ws' -> ws' !! i = Some w' ->
         lookupMin mins i 4 <= w').
Proof.
  split; [vm_compute; reflexivity|].
  split; [vm_compute; reflexivity|].
  split; [reflexivity|].
  split; [vm_compute; reflexivity|].
  split; [reflexivity|].
  intros H.
  specialize (H [15; 6; 10; 10] [3; 7; 14; 10] [3; 7; 14; 10] 100 0%nat 3).
  assert (Hfit : fit [15; 6; 10; 10] 100 [3; 7; 14; 10] = Some [3; 7; 14; 10])
    by (vm_compute; reflexivity).
  specialize (H Hfit eq_refl). vm_compute in H. apply H. reflexivity.
Qed.

(** ** Slack, and the shrink loop when the slack covers the excess *)

Lemma lookupMin_le_maxInt (mins : list Z) (i : nat) :
  Forall GoInt.inRange mins -> lookupMin mins i 4 <= GoInt.maxInt.
Proof.
  intros Hr. unfold lookupMin.
  destruct (mins !! i) as [m|] eqn:Hm; [|unfold GoInt.maxInt; lia].
  rewrite Forall_lookup in Hr. specialize (Hr i m Hm).
  unfold GoInt.inRange, GoInt.maxInt in *.
  destruct (Z.ltb_spec 0 m); lia.
Qed.

Lemma slackOf_bounds (mins : list Z) (i : nat) (w : Z) :
  0 <= w -> 0 <= slackOf mins i w <= w.
Proof.
  intros Hw. unfold slackOf. pose proof (lookupMin_pos mins i).
  destruct (shrinkCol i); lia.
Qed.

Lemma slackFrom_bounds (mins : list Z) (i : nat) (ws : list Z) :
  Forall (fun w => 0 <= w) ws -> 0 <= slackFrom mins i ws <= sumZ ws.
Proof.
  intros Hnn. revert i. induction Hnn as [|w ws Hw Hnn IH]; intros i; simpl.
  - lia.
  - pose proof (slackOf_bounds mins i w Hw). specialize (IH (Datatypes.S i)). lia.
Qed.

Lemma sumZ_drop_le (ws : list Z) (k : nat) :
  Forall (fun w => 0 <= w) ws -> sumZ (drop k ws) <= sumZ ws.
Proof.
  intros Hnn. revert k. induction Hnn as [|w ws Hw Hnn IH]; intros [|k]; simpl;
    try lia.
  specialize (IH k). lia.
Qed.

Lemma slack_loop_exact (mins ws : list Z) (i : nat) (acc : Z) :
  Forall GoInt.inRange mins -> Forall (fun w => 0 <= w) ws ->
  0 <= acc -> acc + sumZ ws <= GoInt.maxInt ->
  rangeFold (slackStep mins) i ws acc = acc + slackFrom mins i ws.
Proof.
  intros Hr Hnn. revert i acc.
  induction Hnn as [|w ws Hw Hnn IH]; intros i acc Hacc Hsum; simpl in *.
  - lia.
  - pose proof (sumZ_nonneg ws Hnn) as Hs.
    pose proof (lookupMin_pos mins i) as Hp.
    pose proof (lookupMin_le_maxInt mins i Hr) as Hm.
    pose proof (slackOf_bounds mins i w Hw) as Hb.
    assert (Hstep : slackStep mins i w acc = acc + slackOf mins i w).
    { unfold slackStep, slackOf in *. destruct (shrinkCol i); [|lia].
      rewrite sub_exact
        by in_range.
      destruct (Z.ltb_spec 0 (w - lookupMin mins i 4)); [|lia].
      rewrite add_exact
        by in_range.
      lia. }
    rewrite Hstep, IH by lia. lia.
Qed.
Lemma shrinkStep_absorbs (mins ws : list Z) (k : nat) (wd : list Z)
    (e T w R : Z) :
  Forall GoInt.inRange mins ->
  wd !! k = Some w -> 0 <= w <= 2 ^ 31 + 1 ->
  0 <= R -> T = slackOf mins k w + R -> T <= 2 ^ 31 + 1 ->
  0 <= e <= T ->
  exists v e',
    shrinkStep mins k (mkShrink wd e T) = Some (mkShrink (<[k := v]> wd) e' R)
    /\ 0 <= e' <= R /\ v - e' = w - e.
Proof.
  intros Hr Hw Hwb HR HT HTb He.
  pose proof (lookupMin_pos mins k) as Hp.
  pose proof (lookupMin_le_maxInt mins k Hr) as Hm.
  unfold shrinkStep, slackOf in *. cbn [widths excess totalShrinkable].
  destruct (shrinkCol k).
  2:{ exists w, e. rewrite list_insert_id by exact Hw.
      replace R with T by lia. split; [reflexivity | lia]. }
  rewrite Hw. cbn.
  rewrite sub_exact
    by in_range.
  set (m := lookupMin mins k 4) in *.
  destruct (Z.ltb_spec 0 (w - m)) as [Hs|Hs].
  2:{ cbn. exists w, e. rewrite list_insert_id by exact Hw.
      replace R with T by lia. split; [reflexivity | lia]. }
  rewrite Z.max_r in HT by lia.
  destruct (Z.ltb_spec 0 T) as [Hpos|Hpos]; [|lia]. cbn.
  assert (Hprod : 0 <= (w - m) * e <= (2 ^ 31 + 1) * (2 ^ 31 + 1)).
  { split; [apply Z.mul_nonneg_nonneg; lia|].
    apply Z.mul_le_mono_nonneg; lia. }
  rewrite mul_exact
    by in_range.
  rewrite quo_exact
    by in_range.
  cbn.
  set (q := (w - m) * e / T).
  assert (Hq0 : 0 <= q) by (apply Z.div_pos; lia).
  assert (Hqs : q <= w - m).
  { apply Z.div_le_upper_bound; [lia|]. nia. }
  assert (Hqe : q <= e).
  { apply Z.div_le_upper_bound; [lia|]. nia. }
  assert (Hql : e + (w - m) - T <= q).
  { apply Z.div_le_lower_bound; [lia|]. nia. }
  destruct (Z.ltb_spec (w - m) q) as [Hc|_]; [lia|].
  rewrite !sub_exact
    by in_range.
  destruct (Z.ltb_spec (w - q) m) as [Hc|_]; [lia|].
  exists (w - q), (e - q). replace (T - (w - m)) with R by lia.
  split; [reflexivity | lia].
Qed.

Lemma shrink_loop_absorbs (mins ws : list Z) (E0 : Z) :
  Forall GoInt.inRange mins -> Forall (fun w => 0 <= w) ws ->
  sumZ ws <= 2 ^ 31 + 1 ->
  0 <= E0 <= shrinkableSlack mins ws ->
  exists st,
    forRange (length ws) (shrinkStep mins)
      (mkShrink ws E0 (shrinkableSlack mins ws)) = Some st
    /\ length (widths st) = length ws
    /\ excess st = 0
    /\ sumZ (widths st) = sumZ ws - E0.
Proof.
  intros Hr Hnn Hsum HE.
  destruct (forFrom_invariant (shrinkStep mins)
    (fun k st => length (widths st) = length ws
       /\ (forall j, (k <= j)%nat -> widths st !! j = ws !! j)
       /\ 0 <= excess st <= totalShrinkable st
       /\ totalShrinkable st = slackFrom mins k (drop k ws)
       /\ sumZ (widths st) - excess st = sumZ ws - E0)
    (length ws) 0%nat (mkShrink ws E0 (shrinkableSlack mins ws)))
    as (st & Hrun & Hlen & _ & He & HT & Hs).
  - cbn. rewrite drop_0. repeat split; auto; lia.
  - intros k [wd e T] Hk (Hlen & Hrest & He & HT & Hs).
    cbn [widths excess totalShrinkable] in *.
    destruct (lookup_lt_is_Some_2 ws k ltac:(lia)) as [w Hw].
    assert (Hwd : wd !! k = Some w) by (rewrite Hrest by lia; exact Hw).
    rewrite (drop_S ws w k Hw) in HT. cbn [slackFrom] in HT.
    assert (Hnn' : Forall (fun w => 0 <= w) (drop (Datatypes.S k) ws))
      by (apply Forall_drop; exact Hnn).
    pose proof (slackFrom_bounds mins (Datatypes.S k) _ Hnn') as HR.
    pose proof (sumZ_drop_le ws (Datatypes.S k) Hnn) as Hd.
    assert (Hw0 : 0 <= w) by (rewrite Forall_lookup in Hnn; exact (Hnn k w Hw)).
    pose proof (sumZ_lookup_le ws k w Hnn Hw) as Hwle.
    pose proof (slackOf_bounds mins k w Hw0) as Hso.
    assert (HTle : T <= 2 ^ 31 + 1).
    { pose proof (slackFrom_bounds mins k (drop k ws)
                    (Forall_drop _ _ _ Hnn)) as Hk'.
      rewrite (drop_S ws w k Hw) in Hk'. cbn [slackFrom] in Hk'.
      pose proof (sumZ_drop_le ws k Hnn). rewrite (drop_S ws w k Hw) in *.
      lia. }
    destruct (shrinkStep_absorbs mins ws k wd e T w
                (slackFrom mins (Datatypes.S k) (drop (Datatypes.S k) ws)))
      as (v & e' & Hstep & He' & Hve); try assumption; try lia.
    eexists. split; [exact Hstep|]. cbn [widths excess totalShrinkable].
    split; [rewrite length_insert; exact Hlen|].
    split; [intros j Hj; rewrite list_lookup_insert_ne by lia;
            apply Hrest; lia|].
    split; [lia|]. split; [reflexivity|].
    rewrite (sumZ_insert wd k w v Hwd). lia.
  - exists st. rewrite drop_ge in HT by lia. cbn in HT.
    split; [exact Hrun|]. split; [exact Hlen|].
    split; lia.
Qed.

(** C1, as amended: when the widths on entry are not negative and their
    excess over the terminal budget is at most the total slack of the
    shrinkable columns (every column but Size and Perms), the fit step
    returns widths whose sum plus border overhead is the smaller of the
    total on entry and the budget, hence within the budget. *)
Theorem fit_within_budget_when_slack_covers_excess
    (mins ws : list Z) (terminalWidth : Z) :
  Forall (fun w => 0 <= w) ws -> Forall GoInt.inRange mins ->
  0 <= terminalWidth -> renderedWidth ws <= 2 ^ 31 ->
  renderedWidth ws - terminalWidth <= shrinkableSlack mins ws ->
  exists ws', fit mins terminalWidth ws = Some ws'
    /\ length ws' = length ws
    /\ renderedWidth ws' = Z.min (renderedWidth ws) terminalWidth
    /\ renderedWidth ws' <= terminalWidth.
Proof.
  intros Hnn Hr Htw Hb Hslack. unfold fit.
  pose proof (sumZ_nonneg ws Hnn) as Hs0.
  pose proof (borderOverhead_lower (length ws)) as Hbo.
  rewrite totalWidth_exact by (try assumption; unfold GoInt.maxInt; lia).
  destruct (Z.ltb_spec terminalWidth (renderedWidth ws)) as [Hlt|Hge].
  - rewrite sub_exact
      by (unfold GoInt.inRange, GoInt.minInt, GoInt.maxInt, renderedWidth in *; lia).
    assert (Hinit : initialShrinkable mins ws = shrinkableSlack mins ws).
    { unfold initialShrinkable, shrinkableSlack.
      rewrite slack_loop_exact;
        try assumption; unfold GoInt.maxInt, renderedWidth in *; lia. }
    rewrite Hinit.
    destruct (shrink_loop_absorbs mins ws (renderedWidth ws - terminalWidth))
      as (st & Hrun & Hlen & _ & Hsum); try assumption;
      try (unfold renderedWidth in *; lia).
    exists (widths st). rewrite Hrun. cbn.
    split; [reflexivity|]. split; [exact Hlen|].
    unfold renderedWidth in *. rewrite Hlen, Hsum. lia.
  - exists ws. split; [reflexivity|]. split; [reflexivity|]. lia.
Qed.

Lemma fit_within_budget_when_slack_covers_excess_witness :
  exists ws', fit [15; 6; 10; 10] 55 [20; 9; 10; 10] = Some ws'
    /\ renderedWidth ws' <= 55.
Proof.
  destruct (fit_within_budget_when_slack_covers_excess
              [15; 6; 10; 10] [20; 9; 10; 10] 55)
    as (ws' & Hrun & _ & _ & Hle).
  - repeat constructor; lia.
  - repeat constructor; vm_compute; discriminate.
  - lia.
  - vm_compute. discriminate.
  - vm_compute. discriminate.
  - exists ws'. split; [exact Hrun | exact Hle].
Defined.

(** C1 as stated fails: with [COLUMNS=62] the budget is 52, the floor of
    the four columns is 52, and a listing whose Size cell is 9 wide has no
    shrinkable slack; the table is rendered 55 wide. *)
Lemma printTable_wider_than_budget :
  printTable false
    [mkRow "a.txt" "1023.9 KB" "2 days ago" "-rw-r--r--" ""]%string 52
    = Some (Rendered [15; 9; 10; 10])
  /\ shrinkableSlack [15; 6; 10; 10] [15; 9; 10; 10] = 0
  /\ ~ (renderedWidth [15; 9; 10; 10] <= Z.max 52 40).
Proof.
  split; [vm_compute; reflexivity|].
  split; [vm_compute; reflexivity|].
  vm_compute. intros H. apply H. reflexivity.
Qed.

(** C2, as amended: on clamped widths [22,7,14,10], minimums
    [15,6,10,10] and budget 60 the fit step computes excess 4 and total
    slack 11, takes floor(7*4/11) = 2 from Name, which leaves excess 2 over
    the remaining slack 4, then floor(4*2/4) = 2 from Modified, and returns
    [20,7,12,10], of total rendered width 60. *)
Theorem fit_budget_60 :
  totalWidth [22; 7; 14; 10] = 64
  /\ initialShrinkable [15; 6; 10; 10] [22; 7; 14; 10] = 11
  /\ shrinkStep [15; 6; 10; 10] 0 (mkShrink [22; 7; 14; 10] 4 11)
       = Some (mkShrink [20; 7; 14; 10] 2 4)
  /\ shrinkStep [15; 6; 10; 10] 2 (mkShrink [20; 7; 14; 10] 2 4)
       = Some (mkShrink [20; 7; 12; 10] 0 0)
  /\ fit [15; 6; 10; 10] 60 [22; 7; 14; 10] = Some [20; 7; 12; 10]
  /\ renderedWidth [20; 7; 12; 10] = 60.
Proof. repeat split; vm_compute; reflexivity. Qed.

(** C2 as stated fails: the widths returned are not [19,7,13,10]. *)
Lemma budget_60_widths_not_19_13 :
  fit [15; 6; 10; 10] 60 [22; 7; 14; 10] <> Some [19; 7; 13; 10].
Proof. vm_compute. discriminate. Qed.

(** ** Floor check *)

Lemma minSum_nonneg (mins : list Z) (a n : nat) :
  0 <= sumZ (map (fun i => lookupMin mins i 4) (seq a n)).
Proof.
  revert a. induction n as [|n IH]; intros a; simpl; [lia|].
  pose proof (lookupMin_pos mins a). specialize (IH (Datatypes.S a)). lia.
Qed.

Lemma minContent_loop_exact (mins : list Z) (n a : nat) (acc : Z) :
  0 <= acc ->
  acc + sumZ (map (fun i => lookupMin mins i 4) (seq a n)) <= GoInt.maxInt ->
  fold_left (fun acc i => GoInt.add acc (lookupMin mins i 4)) (seq a n) acc
  = acc + sumZ (map (fun i => lookupMin mins i 4) (seq a n)).
Proof.
  revert a acc. induction n as [|n IH]; intros a acc Hacc Hsum; simpl in *.
  - lia.
  - pose proof (lookupMin_pos mins a) as Hp.
    pose proof (minSum_nonneg mins (Datatypes.S a) n) as Hrest.
    rewrite add_exact
      by in_range.
    rewrite IH by lia. lia.
Qed.

Lemma floor_exact (mins : list Z) (n : nat) :
  feasibilityFloor mins n <= GoInt.maxInt ->
  GoInt.add (minContentWidth mins n) (borderWidth n) = feasibilityFloor mins n.
Proof.
  unfold feasibilityFloor, minContentWidth. intros Hf.
  pose proof (borderOverhead_lower n) as Hb.
  pose proof (minSum_nonneg mins 0 n) as Hs.
  assert (Hsum : sumZ (map (fun i => lookupMin mins i 4) (seq 0 n))
                 <= GoInt.maxInt).
  { destruct n as [|n]; [simpl; unfold GoInt.maxInt; lia|].
    unfold borderOverhead in *. lia. }
  rewrite minContent_loop_exact by lia.
  rewrite borderWidth_exact by lia.
  rewrite add_exact; [lia|].
  unfold GoInt.inRange, GoInt.minInt, GoInt.maxInt in *. lia.
Qed.

Lemma calculateDisplayWidths_total (data : list (list string)) :
  rectangular data ->
  exists ws, calculateDisplayWidths data = Some ws
    /\ length ws = columnCount data.
Proof.
  intros Hrect. destruct data as [|header rows].
  - exists []. split; reflexivity.
  - destruct (rows_invariant (header :: rows) (length header) Hrect)
      as (ws & Hrun & Hlen & _).
    exists ws. split; [exact Hrun | exact Hlen].
Qed.

(** On a grid of uniform column count [layout] reaches the floor check
    with one clamped width per column. *)
Lemma layout_floor_check (mins maxs : list Z) (data : list (list string))
    (terminalWidth : Z) :
  rectangular data ->
  feasibilityFloor mins (columnCount data) <= GoInt.maxInt ->
  exists clamped,
    length clamped = columnCount data
    /\ layout mins maxs data terminalWidth
        = if terminalWidth <? feasibilityFloor mins (columnCount data)
          then Some TooSmall
          else final ← fit mins terminalWidth clamped; Some (Rendered final).
Proof.
  intros Hrect Hr. unfold layout.
  destruct (calculateDisplayWidths_total data Hrect) as (natural & -> & Hn).
  cbn.
  destruct (clamp_lookup mins maxs natural) as (ws & -> & Hlen & _). cbn.
  exists ws. split; [lia|].
  rewrite Hlen, Hn, floor_exact by exact Hr. reflexivity.
Qed.

(** C6: on a grid whose rows all have the header's column count, a
    terminal budget below the feasibility floor (the sum over the columns of
    the declared minimum, or 4 where none is declared, plus border overhead
    [(columnCount - 1) * 3 + 2]) makes the layout print the advisory message
    and return: no table is rendered, and nothing panics. The floor is an
    [int]. *)
Theorem layout_too_small (mins maxs : list Z) (data : list (list string))
    (terminalWidth : Z) :
  rectangular data ->
  feasibilityFloor mins (columnCount data) <= GoInt.maxInt ->
  terminalWidth < feasibilityFloor mins (columnCount data) ->
  layout mins maxs data terminalWidth = Some TooSmall.
Proof.
  intros Hrect Hr Hlt.
  destruct (layout_floor_check mins maxs data terminalWidth Hrect Hr)
    as (clamped & _ & ->).
  destruct (Z.ltb_spec terminalWidth
              (feasibilityFloor mins (columnCount data))) as [_|Hge].
  - reflexivity.
  - lia.
Qed.

Lemma layout_too_small_witness :
  layout [15; 6; 10; 10] [50; 10; 15; 12]
    [["Name"; "Size"; "Modified"; "Perms"];
     ["a.txt"; "1023.9 KB"; "2 days ago"; "-rw-r--r--"]]%string 51
  = Some TooSmall.
Proof.
  apply layout_too_small.
  - repeat constructor.
  - vm_compute. discriminate.
  - vm_compute. reflexivity.
Defined.

(** ** [formatSize]: the unit index *)

Lemma unitLoop_stop (n div exp : Z) :
  n < 1024 -> unitLoop n div exp = (div, exp).
Proof.
  intros Hn. rewrite unitLoop_equation_1.
  destruct (Z_le_dec 1024 n); [lia | reflexivity].
Qed.

Lemma unitLoop_turn (n div exp : Z) :
  1024 <= n ->
  unitLoop n div exp
  = unitLoop (Z.quot n 1024) (GoInt.mul div 1024) (GoInt.add exp 1).
Proof.
  intros Hn. rewrite unitLoop_equation_1.
  destruct (Z_le_dec 1024 n); [reflexivity | lia].
Qed.

(** The exponent counts the powers of 1024 below [n]. *)
Lemma unitLoop_exp (k : nat) :
  forall n div exp,
    1024 ^ Z.of_nat k <= n < 1024 ^ (Z.of_nat k + 1) ->
    0 <= exp -> exp + Z.of_nat k <= GoInt.maxInt ->
    snd (unitLoop n div exp) = exp + Z.of_nat k.
Proof.
  induction k as [|k IH]; intros n div exp Hn Hexp Hmax.
  - change (1024 ^ (Z.of_nat 0 + 1)) with 1024 in Hn.
    rewrite unitLoop_stop by lia. cbn. lia.
  - assert (Hpow : 1024 ^ Z.of_nat (Datatypes.S k) = 1024 * 1024 ^ Z.of_nat k).
    { rewrite Nat2Z.inj_succ, Z.pow_succ_r by lia. reflexivity. }
    assert (Hpow' : 1024 ^ (Z.of_nat (Datatypes.S k) + 1)
                    = 1024 * 1024 ^ (Z.of_nat k + 1)).
    { rewrite Nat2Z.inj_succ.
      replace (Z.succ (Z.of_nat k) + 1) with (Z.succ (Z.of_nat k + 1)) by lia.
      rewrite Z.pow_succ_r by lia. reflexivity. }
    assert (Hk : 0 < 1024 ^ Z.of_nat k) by (apply Z.pow_pos_nonneg; lia).
    rewrite unitLoop_turn by lia.
    rewrite add_exact
      by in_range.
    rewrite IH; try lia.
    rewrite Z.quot_div_nonneg by lia. split.
    + apply Z.div_le_lower_bound; lia.
    + apply Z.div_lt_upper_bound; lia.
Qed.

Lemma unitAt_some (exp : Z) : 0 <= exp <= 3 -> exists u, unitAt exp = Some u.
Proof.
  intros He. unfold unitAt. destruct (Z.ltb_spec exp 0); [lia|].
  assert (exp = 0 \/ exp = 1 \/ exp = 2 \/ exp = 3) as [-> | [-> | [-> | ->]]] by lia;
    cbn; eauto.
Qed.

Lemma unitAt_none (exp : Z) : 4 <= exp -> unitAt exp = None.
Proof.
  intros He. unfold unitAt. destruct (Z.ltb_spec exp 0); [lia|].
  apply lookup_ge_None_2. cbn. lia.
Qed.

Section FormatSizeIndex.

Variable sprintfBytes : Z -> string.
Variable sprintfUnit : Z -> Z -> string -> string.
Variables fgCyan fgHiWhite : string -> string.

(** C10: for a file size from 0 up to, not including, 1024^5 a string is
    returned: below 1024 it is the size in bytes, as [Sprintf] writes it at
    the format of line 412; from 1024 on the unit exponent of [formatSize]
    is between 0 and 3, the lookup into the four units is in bounds, and
    the string is built from the unit at that index. From 1024^5 up to the
    largest [int64] the exponent is 4 or more and the lookup is out of
    range. *)
Theorem formatSize_unit_index (size : Z) :
  (0 <= size < 1024 ^ 5 ->
     (size < 1024 ->
        formatSize sprintfBytes sprintfUnit fgCyan fgHiWhite size false
        = Some (sprintfBytes size))
     /\ (1024 <= size ->
           0 <= snd (unitLoop (Z.quot size 1024) 1024 0) <= 3
           /\ exists u,
                units !! Z.to_nat (snd (unitLoop (Z.quot size 1024) 1024 0))
                = Some u
                /\ formatSize sprintfBytes sprintfUnit fgCyan fgHiWhite
                     size false
                   = Some (fgHiWhite
                             (sprintfUnit size
                                (fst (unitLoop (Z.quot size 1024) 1024 0)) u)))
     /\ exists str,
          formatSize sprintfBytes sprintfUnit fgCyan fgHiWhite size false
          = Some str)
  /\ (1024 ^ 5 <= size <= GoInt.maxInt ->
        4 <= snd (unitLoop (Z.quot size 1024) 1024 0)
        /\ formatSize sprintfBytes sprintfUnit fgCyan fgHiWhite size false
           = None).
Proof.
  split.
  - intros Hs.
    assert (Hexp : 1024 <= size ->
              0 <= snd (unitLoop (Z.quot size 1024) 1024 0) <= 3).
    { intros Hge.
      assert (Hn : 1 <= Z.quot size 1024 < 1024 ^ 4).
      { rewrite Z.quot_div_nonneg by lia. split.
        - apply Z.div_le_lower_bound; lia.
        - apply Z.div_lt_upper_bound; lia. }
      set (n := Z.quot size 1024) in *.
      assert (Hk : exists k : nat, (k <= 3)%nat
                /\ 1024 ^ Z.of_nat k <= n < 1024 ^ (Z.of_nat k + 1)).
      { destruct (Z_lt_dec n 1024); [exists 0%nat; cbn; lia|].
        destruct (Z_lt_dec n (1024 ^ 2)); [exists 1%nat; cbn; lia|].
        destruct (Z_lt_dec n (1024 ^ 3)); [exists 2%nat; cbn; lia|].
        exists 3%nat. cbn. lia. }
      destruct Hk as (k & Hk3 & Hk).
      rewrite (unitLoop_exp k) by (try exact Hk; unfold GoInt.maxInt; lia).
      lia. }
    assert (Hunit : 1024 <= size ->
              exists u,
                units !! Z.to_nat (snd (unitLoop (Z.quot size 1024) 1024 0))
                = Some u
                /\ formatSize sprintfBytes sprintfUnit fgCyan fgHiWhite
                     size false
                   = Some (fgHiWhite
                             (sprintfUnit size
                                (fst (unitLoop (Z.quot size 1024) 1024 0)) u))).
    { intros Hge. specialize (Hexp Hge). unfold formatSize.
      destruct (Z.ltb_spec size 1024) as [Hlt|_]; [lia|].
      destruct (unitLoop (Z.quot size 1024) 1024 0) as [div exp].
      cbn [fst snd] in *.
      destruct (unitAt_some exp Hexp) as [u Hu]. rewrite Hu. cbn.
      exists u. split; [|reflexivity].
      unfold unitAt in Hu. destruct (Z.ltb_spec exp 0); [lia | exact Hu]. }
    split.
    { intros Hlt. unfold formatSize.
      destruct (Z.ltb_spec size 1024) as [_|Hge]; [reflexivity | lia]. }
    split.
    { intros Hge. split; [exact (Hexp Hge) | exact (Hunit Hge)]. }
    destruct (Z_lt_dec size 1024) as [Hlt|Hge].
    + exists (sprintfBytes size). unfold formatSize.
      destruct (Z.ltb_spec size 1024); [reflexivity | lia].
    + destruct (Hunit ltac:(lia)) as (u & _ & ->). eauto.
  - intros Hs. unfold GoInt.maxInt in Hs.
    assert (Hn : 1024 ^ 4 <= Z.quot size 1024 < 1024 ^ 6).
    { rewrite Z.quot_div_nonneg by lia. split.
      - apply Z.div_le_lower_bound; lia.
      - apply Z.div_lt_upper_bound; lia. }
    set (n := Z.quot size 1024) in *.
    assert (Hk : exists k : nat, (4 <= k <= 5)%nat
              /\ 1024 ^ Z.of_nat k <= n < 1024 ^ (Z.of_nat k + 1)).
    { destruct (Z_lt_dec n (1024 ^ 5)); [exists 4%nat | exists 5%nat]; cbn; lia. }
    destruct Hk as (k & Hk45 & Hk).
    assert (Hexp : snd (unitLoop n 1024 0) = 0 + Z.of_nat k).
    { apply unitLoop_exp; try exact Hk; unfold GoInt.maxInt; lia. }
    split; [lia|].
    unfold formatSize.
    destruct (Z.ltb_spec size 1024) as [Hlt|Hge]; [lia|].
    fold n. destruct (unitLoop n 1024 0) as [div exp]. cbn in Hexp.
    rewrite unitAt_none by lia. reflexivity.
Qed.

End FormatSizeIndex.

Lemma formatSize_unit_index_witness :
  formatSize (fun _ => "512 B"%string) (fun _ _ u => u) id id 512 false
  = Some "512 B"%string
  /\ formatSize (fun _ => "512 B"%string) (fun _ _ u => u) id id 2097152 false
     = Some "MB"%string
  /\ formatSize (fun _ => "512 B"%string) (fun _ _ u => u) id id (1024 ^ 5) false
     = None.
Proof.
  split; [|split].
  - apply (proj1 (formatSize_unit_index (fun _ => "512 B"%string)
                    (fun _ _ u => u) id id 512)); lia.
  - destruct (proj1 (formatSize_unit_index (fun _ => "512 B"%string)
                       (fun _ _ u => u) id id 2097152) ltac:(lia))
      as (_ & Hunit & _).
    destruct (Hunit ltac:(lia)) as (_ & u & Hu & Hrun).
    rewrite Hrun. vm_compute in Hu. injection Hu as <-. reflexivity.
  - apply (proj2 (formatSize_unit_index (fun _ => "512 B"%string)
                    (fun _ _ u => u) id id (1024 ^ 5))).
    unfold GoInt.maxInt. lia.
Defined.

(** ** [printTable] with its own constraint table *)

Lemma printTable_grid_rectangular (showGit : bool) (files : list fileRow) :
  rectangular (headers showGit :: map (rowCells showGit) files).
Proof.
  unfold rectangular. cbn [columnCount]. constructor; [reflexivity|].
  induction files as [|f files IH]; [constructor|].
  cbn [map]. constructor; [destruct showGit; reflexivity | exact IH].
Qed.

(** The floor of the program's table is 52 without the Git column and 61
    with it; below it [printTable] prints the advisory message. *)
Lemma printTable_too_small (showGit : bool) (files : list fileRow)
    (getTerminalWidth : Z) :
  files <> [] ->
  Z.max getTerminalWidth 40 < (if showGit then 61 else 52) ->
  printTable showGit files getTerminalWidth = Some TooSmall.
Proof.
  intros Hne Hlt. unfold printTable.
  destruct files as [|f files]; [congruence|].
  set (data := headers showGit :: map (rowCells showGit) (f :: files)).
  destruct (columnConstraints showGit) as [mins maxs] eqn:Hcc.
  assert (Hfloor : feasibilityFloor mins (columnCount data)
                   = if showGit then 61 else 52).
  { destruct showGit; injection Hcc as <- <-; reflexivity. }
  destruct (layout_floor_check mins maxs data (Z.max getTerminalWidth 40)
              (printTable_grid_rectangular showGit (f :: files)))
    as (clamped & _ & ->).
  - rewrite Hfloor. destruct showGit; vm_compute; discriminate.
  - rewrite Hfloor.
    destruct (Z.ltb_spec (Z.max getTerminalWidth 40)
                (if showGit then 61 else 52)); [reflexivity | lia].
Qed.

Lemma columnConstraints_min (showGit : bool) (i : nat) (w : Z) :
  (i < length (fst (columnConstraints showGit)))%nat ->
  lookupMin (fst (columnConstraints showGit)) i 4
  <= clampVal (fst (columnConstraints showGit))
       (snd (columnConstraints showGit)) i w.
Proof.
  intros Hi.
  destruct showGit; cbn in Hi;
    repeat (destruct i as [|i]; [
      eapply clampVal_min;
        [ reflexivity
        | reflexivity
        | intros M HM _; vm_compute in HM; injection HM as <-;
          vm_compute; discriminate ] |]);
    lia.
Qed.

(** Whatever [printTable] renders, every column is at least as wide as
    its declared minimum. *)
Lemma printTable_rendered_minimum (showGit : bool) (files : list fileRow)
    (getTerminalWidth : Z) (ws : list Z) :
  printTable showGit files getTerminalWidth = Some (Rendered ws) ->
  length ws = length (headers showGit)
  /\ forall i w, ws !! i = Some w ->
       lookupMin (fst (columnConstraints showGit)) i 4 <= w.
Proof.
  unfold printTable. destruct files as [|f files]; [discriminate|].
  set (data := headers showGit :: map (rowCells showGit) (f :: files)).
  set (ncols := length (headers showGit)).
  pose proof (columnConstraints_min showGit) as Hmin.
  assert (Hcols : length (fst (columnConstraints showGit))
                  = ncols) by (destruct showGit; reflexivity).
  destruct (columnConstraints showGit) as [mins maxs]. cbn [fst snd] in *.
  unfold layout.
  destruct (calculateDisplayWidths_total data
              (printTable_grid_rectangular showGit (f :: files)))
    as (natural & -> & Hn).
  change (columnCount data) with ncols in Hn. clearbody ncols. cbn.
  destruct (clamp_lookup mins maxs natural) as (cl & -> & Hlen & Hlk). cbn.
  destruct (_ <? _); [discriminate|].
  destruct (fit_minimum_aux mins cl (Z.max getTerminalWidth 40))
    as (ws' & -> & Hlen' & Hfit). cbn.
  intros [= <-]. split; [lia|].
  intros i w Hw.
  assert (Hi : (i < length cl)%nat) by (apply lookup_lt_Some in Hw; lia).
  destruct (lookup_lt_is_Some_2 cl i Hi) as [c Hc].
  destruct (Hfit i c Hc) as (w' & Hw' & Hcase).
  assert (w' = w) by congruence. subst w'.
  destruct Hcase as [->|Hge]; [|exact Hge].
  rewrite Hlk in Hc. destruct (natural !! i) as [x|]; [|discriminate].
  injection Hc as <-. apply Hmin. lia.
Qed.

(** [printTable] never panics: it stays silent on an empty listing, prints
    the advisory message, or renders. *)
Lemma printTable_total (showGit : bool) (files : list fileRow)
    (getTerminalWidth : Z) :
  exists o, printTable showGit files getTerminalWidth = Some o.
Proof.
  unfold printTable. destruct files as [|f files]; [eauto|].
  set (data := headers showGit :: map (rowCells showGit) (f :: files)).
  destruct (columnConstraints showGit) as [mins maxs]. unfold layout.
  destruct (calculateDisplayWidths_total data
              (printTable_grid_rectangular showGit (f :: files)))
    as (natural & -> & _). cbn.
  destruct (clamp_lookup mins maxs natural) as (cl & -> & _ & _). cbn.
  destruct (_ <? _); [eauto|].
  destruct (fit_minimum_aux mins cl (Z.max getTerminalWidth 40))
    as (ws' & -> & _ & _). cbn. eauto.
Qed.

(** * Further properties *)

(** ** [stripANSI] and the rune count *)

Lemma isEsc_eq (c : ascii) : isEsc c = true -> c = ESC.
Proof.
  unfold isEsc, byteVal. intros Hc. apply Z.eqb_eq in Hc.
  rewrite <- (ascii_N_embedding c).
  replace (N_of_ascii c) with 27%N by lia. reflexivity.
Qed.

Lemma isBracket_eq (b : ascii) : isBracket b = true -> b = "["%char.
Proof.
  unfold isBracket, byteVal. intros Hb. apply Z.eqb_eq in Hb.
  rewrite <- (ascii_N_embedding b).
  replace (N_of_ascii b) with 91%N by lia. reflexivity.
Qed.

Lemma stripANSI_fixed (s : string) : noEsc s = true -> stripANSI s = s.
Proof.
  intros H. pose proof (stripANSI_app_no_escape s EmptyString H) as Happ.
  cbn [stripANSI] in Happ. rewrite !string_app_nil in Happ. exact Happ.
Qed.

Lemma stripANSI_result_no_escape_le (n : nat) (s : string) :
  (String.length s <= n)%nat -> noEsc (stripANSI s) = true.
Proof.
  revert s. induction n as [|n IH]; intros s Hlen.
  - destruct s; [reflexivity | simpl in Hlen; lia].
  - destruct s as [|c rest]; [reflexivity|].
    destruct (isEsc c) eqn:Hc.
    + apply isEsc_eq in Hc as ->.
      destruct (startsWithBracket rest) eqn:Hb.
      * destruct rest as [|b rest']; [discriminate|].
        cbn [startsWithBracket] in Hb. apply isBracket_eq in Hb as ->.
        rewrite stripANSI_bracket. apply IH.
        pose proof (afterTerminator_length rest'). simpl in *. lia.
      * rewrite stripANSI_lone_escape by exact Hb. apply IH.
        simpl in Hlen. lia.
    + rewrite stripANSI_keep by exact Hc. cbn [noEsc]. rewrite Hc.
      cbn. apply IH. simpl in Hlen. lia.
Qed.

(** X1: a string without escape marker is returned as it is; the result of
    [stripANSI] holds no escape marker, so stripping it again changes
    nothing. *)
Theorem stripANSI_idempotent (s : string) :
  (noEsc s = true -> stripANSI s = s)
  /\ noEsc (stripANSI s) = true
  /\ stripANSI (stripANSI s) = stripANSI s.
Proof.
  assert (H : noEsc (stripANSI s) = true)
    by (apply (stripANSI_result_no_escape_le (String.length s)); lia).
  split; [apply stripANSI_fixed|].
  split; [exact H | apply stripANSI_fixed; exact H].
Qed.

Lemma stripANSI_idempotent_witness : stripANSI "file.txt" = "file.txt"%string.
Proof. exact (proj1 (stripANSI_idempotent "file.txt") eq_refl). Defined.

Lemma afterTerminator_params (p rest : string) :
  hasLetter p = false -> afterTerminator (p ++ String "m"%char rest) = rest.
Proof.
  induction p as [|d p IH]; [reflexivity|].
  cbn [hasLetter]. intros H. apply orb_false_iff in H as [Hd Hp].
  change (String d p ++ String "m"%char rest)%string
    with (String d (p ++ String "m"%char rest)).
  cbn [afterTerminator]. rewrite Hd. apply IH. exact Hp.
Qed.

Lemma string_app_assoc (a b c : string) :
  ((a ++ b) ++ c)%string = (a ++ (b ++ c))%string.
Proof.
  induction a as [|x a IH]; [reflexivity|]. cbn. rewrite IH. reflexivity.
Qed.

Lemma stripANSI_sgr (p rest : string) :
  hasLetter p = false -> stripANSI (sgr p ++ rest) = stripANSI rest.
Proof.
  intros Hp. unfold sgr.
  change (String ESC (String "["%char (p ++ "m")) ++ rest)%string
    with (String ESC (String "["%char ((p ++ "m") ++ rest)))%string.
  rewrite stripANSI_bracket, string_app_assoc.
  change ("m" ++ rest)%string with (String "m"%char rest).
  rewrite afterTerminator_params by exact Hp. reflexivity.
Qed.

(** X2: text wrapped between two SGR sequences, as a colour library writes
    it, comes back as the text alone, and is measured as the text alone. *)
Theorem stripANSI_sgr_wrapped (p q s : string) :
  hasLetter p = false -> hasLetter q = false -> noEsc s = true ->
  stripANSI (sgr p ++ s ++ sgr q) = s
  /\ measure (sgr p ++ s ++ sgr q) = RuneCountInString s.
Proof.
  intros Hp Hq Hs.
  assert (H : stripANSI (sgr p ++ s ++ sgr q) = s).
  { rewrite stripANSI_sgr by exact Hp.
    rewrite stripANSI_app_no_escape by exact Hs.
    rewrite <- (string_app_nil (sgr q)).
    rewrite stripANSI_sgr by exact Hq. cbn [stripANSI].
    apply string_app_nil. }
  split; [exact H|]. unfold measure. rewrite H. reflexivity.
Qed.

Lemma stripANSI_sgr_wrapped_witness :
  stripANSI (sgr "1;34" ++ "src" ++ sgr "0") = "src"%string
  /\ measure (sgr "1;34" ++ "src" ++ sgr "0") = RuneCountInString "src".
Proof. apply stripANSI_sgr_wrapped; reflexivity. Defined.

Lemma RuneCount_lower_le (n : nat) (s : string) :
  (String.length s <= n)%nat ->
  Z.of_nat (String.length s) <= 4 * RuneCountInString s.
Proof.
  revert s. induction n as [|n IH]; intros s Hlen.
  - destruct s; simpl in *; lia.
  - destruct s as [|c r1]; [simpl; lia|].
    cbn [RuneCountInString].
    repeat case_match; subst;
      match goal with
      | |- context [RuneCountInString ?t] =>
          let H := fresh in
          assert (H : (String.length t <= n)%nat) by (simpl in *; lia);
          apply IH in H; simpl in *; lia
      end.
Qed.

Lemma RuneCount_ascii (s : string) :
  isAscii s = true -> RuneCountInString s = Z.of_nat (String.length s).
Proof.
  induction s as [|c s IH]; [reflexivity|].
  cbn [isAscii]. intros H. apply andb_true_iff in H as [Hc Hs].
  cbn [RuneCountInString String.length]. rewrite Hc, IH by exact Hs. lia.
Qed.

(** X3: the width of a cell is at most its byte length; on text without
    escape marker it is at least a quarter of the byte length, a rune taking
    at most four bytes, and it is the byte length when the text is all
    ASCII. *)
Theorem measure_between (s : string) :
  measure s <= Z.of_nat (String.length s)
  /\ (noEsc s = true ->
        Z.of_nat (String.length s) <= 4 * measure s
        /\ (isAscii s = true -> measure s = Z.of_nat (String.length s))).
Proof.
  split; [apply measure_le_length|]. intros Hs.
  unfold measure. rewrite (stripANSI_fixed s Hs). split.
  - apply (RuneCount_lower_le (String.length s)). lia.
  - apply RuneCount_ascii.
Qed.

Lemma measure_between_witness : measure "Modified" = 8.
Proof.
  exact (proj2 (proj2 (measure_between "Modified") eq_refl) eq_refl).
Defined.

(** ** [calculateDisplayWidths] on a grid that is not rectangular *)

Lemma forFrom_fails {S : Type} (body : nat -> S -> option S)
    (Inv : nat -> S -> Prop) (n : nat) :
  forall (i : nat) (s : S),
    Inv i s ->
    (forall k t, (i <= k < i + n)%nat -> Inv k t ->
       body k t = None
       \/ exists t', body k t = Some t' /\ Inv (Datatypes.S k) t') ->
    (exists k, (i <= k < i + n)%nat /\ forall t, Inv k t -> body k t = None) ->
    forFrom body i n s = None.
Proof.
  induction n as [|n IH]; intros i s Hi Hstep (k & Hk & Hfail); [lia|].
  cbn [forFrom]. destruct (decide (k = i)) as [->|Hne].
  - rewrite (Hfail s Hi). reflexivity.
  - destruct (Hstep i s ltac:(lia) Hi) as [->|(s' & -> & Hi')]; [reflexivity|].
    apply IH.
    + exact Hi'.
    + intros j t Hj. apply Hstep. lia.
    + exists k. split; [lia | exact Hfail].
Qed.

Lemma cellStep_short (row : list string) (j : nat) (ws : list Z) :
  (length row <= j)%nat -> cellStep row j ws = None.
Proof.
  intros Hj. unfold cellStep. rewrite (lookup_ge_None_2 row j Hj). reflexivity.
Qed.

Lemma rowStep_short (data : list (list string)) (cols i : nat)
    (row : list string) (ws : list Z) :
  data !! i = Some row -> (length row < cols)%nat -> length ws = cols ->
  rowStep data cols i ws = None.
Proof.
  intros Hrow Hshort Hws. unfold rowStep, forRange. rewrite Hrow. cbn.
  apply (forFrom_fails (cellStep row) (fun _ t => length t = cols)).
  - exact Hws.
  - intros k t Hk Ht. destruct (decide (k < length row)%nat) as [Hlt|Hge].
    + right. destruct (lookup_lt_is_Some_2 t k ltac:(lia)) as [cur Hcur].
      exists (<[k := cellMax row k cur]> t).
      split; [apply cellStep_update; assumption|].
      rewrite length_insert. exact Ht.
    + left. apply cellStep_short. lia.
  - exists (length row). split; [lia|]. intros t _. apply cellStep_short. lia.
Qed.

Lemma rowStep_wide (data : list (list string)) (cols i : nat)
    (row : list string) (ws : list Z) :
  data !! i = Some row -> (cols <= length row)%nat -> length ws = cols ->
  Forall (fun w => 0 <= w) ws ->
  exists ws', rowStep data cols i ws = Some ws'
    /\ length ws' = cols /\ Forall (fun w => 0 <= w) ws'.
Proof.
  intros Hrow Hlen Hws Hnn. unfold rowStep, forRange. rewrite Hrow. cbn.
  destruct (forFrom_pointwise (cellStep row) (cellMax row) cols ws)
    as (ws' & Hrun & Hlen' & Hlk).
  - lia.
  - intros k l x Hk Hx. apply cellStep_update; [lia | exact Hx].
  - exists ws'. split; [exact Hrun|]. split; [lia|].
    apply Forall_lookup. intros j v Hv. rewrite Hlk in Hv.
    rewrite Forall_lookup in Hnn.
    case_decide.
    + destruct (ws !! j) as [x|] eqn:Hx; [|discriminate].
      injection Hv as <-. specialize (Hnn j x Hx). unfold cellMax.
      destruct (row !! j); lia.
    + exact (Hnn j v Hv).
Qed.

Lemma rows_wide (data : list (list string)) (cols : nat) :
  Forall (fun row => (cols <= length row)%nat) data ->
  exists ws,
    forFrom (rowStep data cols) 0 (length data) (replicate cols 0) = Some ws
    /\ length ws = cols /\ Forall (fun w => 0 <= w) ws.
Proof.
  intros Hwide.
  destruct (forFrom_invariant (rowStep data cols)
    (fun _ t => length t = cols /\ Forall (fun w => 0 <= w) t)
    (length data) 0%nat (replicate cols 0)) as (t & Ht & Hlen & Hnn).
  - split; [apply length_replicate|].
    apply Forall_lookup. intros j v Hv.
    apply lookup_replicate_1 in Hv as [-> _]. lia.
  - intros k t Hk [Hlen Hnn].
    destruct (lookup_lt_is_Some_2 data k ltac:(lia)) as [row Hrow].
    rewrite Forall_lookup in Hwide.
    destruct (rowStep_wide data cols k row t Hrow (Hwide k row Hrow) Hlen Hnn)
      as (t' & Hstep & Hlen' & Hnn').
    exists t'. auto.
  - exists t. auto.
Qed.

Lemma rows_short (data : list (list string)) (cols : nat) :
  Exists (fun row => (length row < cols)%nat) data ->
  forFrom (rowStep data cols) 0 (length data) (replicate cols 0) = None.
Proof.
  intros Hshort. apply Exists_exists in Hshort as (row & Hin & Hlt).
  apply list_elem_of_lookup in Hin as [i Hi].
  apply (forFrom_fails (rowStep data cols) (fun _ t => length t = cols)).
  - apply length_replicate.
  - intros k t Hk Ht.
    destruct (lookup_lt_is_Some_2 data k ltac:(lia)) as [r Hr].
    destruct (decide (length r < cols)%nat) as [Hlt'|Hge].
    + left. exact (rowStep_short data cols k r t Hr Hlt' Ht).
    + right. unfold rowStep, forRange. rewrite Hr. cbn.
      destruct (forFrom_pointwise (cellStep r) (cellMax r) cols t)
        as (t' & Hrun & Hlen' & _).
      * lia.
      * intros j l x Hj Hx. apply cellStep_update; [lia | exact Hx].
      * exists t'. split; [exact Hrun | lia].
  - exists i. split; [apply lookup_lt_Some in Hi; lia|].
    intros t Ht. exact (rowStep_short data cols i row t Hi Hlt Ht).
Qed.

(** Two bodies that agree on the indices of the loop give the same loop. *)
Lemma forFrom_ext {S : Type} (body1 body2 : nat -> S -> option S) (n : nat) :
  forall (i : nat) (s : S),
    (forall k t, (i <= k < i + n)%nat -> body1 k t = body2 k t) ->
    forFrom body1 i n s = forFrom body2 i n s.
Proof.
  induction n as [|n IH]; intros i s Heq; [reflexivity|].
  cbn [forFrom]. rewrite (Heq i s) by lia.
  destruct (body2 i s) as [s'|]; [|reflexivity].
  apply IH. intros k t Hk. apply Heq. lia.
Qed.

(** The inner loop reads the cells [0 .. cols - 1] of a row and no other. *)
Lemma cellStep_take (row : list string) (cols j : nat) (ws : list Z) :
  (j < cols)%nat -> cellStep (take cols row) j ws = cellStep row j ws.
Proof.
  intros Hj. unfold cellStep. rewrite lookup_take_lt by exact Hj. reflexivity.
Qed.

Lemma rowStep_take (data : list (list string)) (cols i : nat) (ws : list Z) :
  rowStep (take cols <$> data) cols i ws = rowStep data cols i ws.
Proof.
  unfold rowStep. rewrite list_lookup_fmap.
  destruct (data !! i) as [row|]; [|reflexivity]. cbn.
  unfold forRange. apply forFrom_ext.
  intros k t Hk. apply cellStep_take. lia.
Qed.

Lemma calculateDisplayWidths_take (data : list (list string)) :
  calculateDisplayWidths (take (columnCount data) <$> data)
  = calculateDisplayWidths data.
Proof.
  destruct data as [|header rows]; [reflexivity|].
  cbn [columnCount]. set (cols := length header).
  rewrite fmap_cons. unfold calculateDisplayWidths.
  assert (Hh : length (take cols header) = cols)
    by (apply length_take_le; unfold cols; lia).
  rewrite Hh. fold cols.
  change (take cols header :: (take cols <$> rows))
    with (take cols <$> header :: rows).
  rewrite length_fmap. unfold forRange. apply forFrom_ext.
  intros k t _. apply rowStep_take.
Qed.

(** The column maxima, on a grid whose rows are at least as long as the
    header. *)
Lemma rows_wide_max (data : list (list string)) (cols : nat) :
  Forall (fun row => (cols <= length row)%nat) data ->
  exists ws,
    forFrom (rowStep data cols) 0 (length data) (replicate cols 0) = Some ws
    /\ length ws = cols
    /\ forall j, (j < cols)%nat ->
         exists v, ws !! j = Some v
           /\ (forall i row cell, data !! i = Some row ->
                 row !! j = Some cell -> measure cell <= v)
           /\ ((data = [] /\ v = 0)
               \/ exists i row cell, data !! i = Some row
                    /\ row !! j = Some cell /\ measure cell = v).
Proof.
  intros Hwide.
  destruct (rows_invariant (take cols <$> data) cols)
    as (ws & Hrun & Hlen & Hcols).
  { apply Forall_fmap. eapply Forall_impl; [exact Hwide|].
    intros row Hr. cbn. apply length_take_le. exact Hr. }
  rewrite length_fmap in Hrun.
  rewrite (forFrom_ext _ (rowStep data cols)) in Hrun
    by (intros; apply rowStep_take).
  exists ws. split; [exact Hrun|]. split; [exact Hlen|].
  intros j Hj. destruct (Hcols j Hj) as (v & Hv & Hub & Hatt).
  exists v. split; [exact Hv|]. split.
  - intros i row cell Hrow Hcell. apply (Hub i (take cols row) cell).
    + rewrite list_lookup_fmap, Hrow. reflexivity.
    + rewrite lookup_take_lt by exact Hj. exact Hcell.
  - destruct Hatt as [[Hnil ->]|(i & row' & cell & Hr & Hc & Hm)].
    + left. split; [|reflexivity].
      destruct data; [reflexivity | discriminate].
    + right. rewrite list_lookup_fmap in Hr.
      destruct (data !! i) as [row|] eqn:Hrow; [|discriminate].
      injection Hr as <-. rewrite lookup_take_lt in Hc by exact Hj.
      exists i, row, cell. auto.
Qed.

(** X4: [calculateDisplayWidths] panics exactly when some row has fewer cells
    than the header. Otherwise it returns one width per header column, none
    negative, and the width of column [j] is the largest measured width of
    the cells at index [j], header included. Cells beyond the header's
    column count are ignored: cutting every row to the header's length
    gives the same result. *)
Theorem calculateDisplayWidths_panics_iff_short_row
    (data : list (list string)) :
  (calculateDisplayWidths data = None
   <-> Exists (fun row => (length row < columnCount data)%nat) data)
  /\ (forall ws, calculateDisplayWidths data = Some ws ->
        length ws = columnCount data /\ Forall (fun w => 0 <= w) ws
        /\ forall j, (j < columnCount data)%nat ->
             exists v, ws !! j = Some v
               /\ (forall row cell, row ∈ data -> row !! j = Some cell ->
                     measure cell <= v)
               /\ (exists row cell, row ∈ data /\ row !! j = Some cell
                     /\ measure cell = v))
  /\ calculateDisplayWidths (take (columnCount data) <$> data)
     = calculateDisplayWidths data.
Proof.
  split; [|split; [|apply calculateDisplayWidths_take]].
  { destruct data as [|header rows].
    { split; [discriminate|]. intros H. apply Exists_nil in H. destruct H. }
    set (data := header :: rows).
    change (calculateDisplayWidths data)
      with (forFrom (rowStep data (length header)) 0 (length data)
              (replicate (length header) 0)).
    change (columnCount data) with (length header).
    destruct (Forall_Exists_dec
                (fun row : list string => (length header <= length row)%nat)
                (fun row : list string => (length row < length header)%nat)
                (fun row => le_lt_dec (length header) (length row)) data)
      as [Hwide|Hex].
    - destruct (rows_wide data (length header) Hwide) as (ws & Hrun & _).
      rewrite Hrun. split; [discriminate|]. intros Hex.
      apply Exists_exists in Hex as (row & Hin & Hlt).
      rewrite Forall_forall in Hwide. specialize (Hwide row Hin). lia.
    - rewrite (rows_short data (length header) Hex). split; auto. }
  intros ws Hws.
  destruct data as [|header rows].
  { injection Hws as <-. split; [reflexivity|]. split; [constructor|].
    intros j Hj. cbn in Hj. lia. }
  set (data := header :: rows) in *.
  change (calculateDisplayWidths data)
    with (forFrom (rowStep data (length header)) 0 (length data)
            (replicate (length header) 0)) in Hws.
  change (columnCount data) with (length header).
  destruct (Forall_Exists_dec
              (fun row : list string => (length header <= length row)%nat)
              (fun row : list string => (length row < length header)%nat)
              (fun row => le_lt_dec (length header) (length row)) data)
    as [Hwide|Hex].
  - destruct (rows_wide data (length header) Hwide) as (t & Hrun & Hlen & Hnn).
    destruct (rows_wide_max data (length header) Hwide)
      as (t' & Hrun' & _ & Hcols).
    assert (t = ws) by congruence. assert (t' = ws) by congruence.
    subst t t'. split; [exact Hlen|]. split; [exact Hnn|].
    intros j Hj. destruct (Hcols j Hj) as (v & Hv & Hub & Hatt).
    exists v. split; [exact Hv|]. split.
    + intros row cell Hin Hcell.
      apply list_elem_of_lookup in Hin as [i Hi].
      exact (Hub i row cell Hi Hcell).
    + destruct Hatt as [[Hnil _]|(i & row & cell & Hr & Hc & Hm)];
        [discriminate|].
      exists row, cell. split; [|auto].
      apply list_elem_of_lookup. exists i. exact Hr.
  - rewrite (rows_short data (length header) Hex) in Hws. discriminate.
Qed.

Lemma calculateDisplayWidths_panics_iff_short_row_witness :
  calculateDisplayWidths [["Name"; "Size"]; ["only-a-name"]]%string = None
  /\ calculateDisplayWidths [["Name"]; ["ab"; "surplus"]]%string
     = calculateDisplayWidths [["Name"]; ["ab"]]%string.
Proof.
  split.
  - apply (proj1 (calculateDisplayWidths_panics_iff_short_row
                    [["Name"; "Size"]; ["only-a-name"]]%string)).
    apply Exists_cons_tl. apply Exists_cons_hd. cbn. lia.
  - symmetry.
    exact (proj2 (proj2 (calculateDisplayWidths_panics_iff_short_row
                           [["Name"]; ["ab"; "surplus"]]%string))).
Defined.

(** ** The clamp: the maximum, and clamping twice *)

(** Case analysis on an innermost comparison of the goal. *)
Ltac split_ltb :=
  match goal with
  | |- context [Z.ltb ?a ?b] =>
      lazymatch a with context [Z.ltb] => fail | _ => idtac end;
      lazymatch b with context [Z.ltb] => fail | _ => idtac end;
      destruct (Z.ltb_spec a b); cbn
  end.

Lemma clampVal_max (mins maxs : list Z) (i : nat) (w M : Z) :
  maxs !! i = Some M -> 0 < M -> clampVal mins maxs i w <= M.
Proof.
  intros HM Hpos. unfold clampVal. rewrite HM.
  destruct (Z.ltb_spec 0 M) as [_|]; [|lia]. cbn.
  match goal with |- context [M <? ?x] => destruct (Z.ltb_spec M x) end; lia.
Qed.

Lemma clampVal_idempotent (mins maxs : list Z) (i : nat) (w : Z) :
  clampVal mins maxs i (clampVal mins maxs i w) = clampVal mins maxs i w.
Proof.
  unfold clampVal.
  destruct (mins !! i) as [m|], (maxs !! i) as [M|];
    repeat split_ltb; lia.
Qed.

Lemma clampVal_nonneg (mins maxs : list Z) (i : nat) (w : Z) :
  0 <= w -> 0 <= clampVal mins maxs i w.
Proof.
  intros Hw. unfold clampVal.
  destruct (mins !! i) as [m|], (maxs !! i) as [M|];
    repeat split_ltb; lia.
Qed.

(** X5: a column with a declared maximum is never left wider than it, whatever
    its minimum. *)
Theorem clamp_never_above_maximum (mins maxs ws : list Z) (i : nat) (w M : Z) :
  ws !! i = Some w -> maxs !! i = Some M -> 0 < M ->
  exists ws' w', clamp mins maxs ws = Some ws'
    /\ ws' !! i = Some w' /\ w' <= M.
Proof.
  intros Hw HM Hpos.
  destruct (clamp_lookup mins maxs ws) as (ws' & Hrun & _ & Hlk).
  exists ws', (clampVal mins maxs i w).
  split; [exact Hrun|]. split; [rewrite Hlk, Hw; reflexivity|].
  apply clampVal_max; assumption.
Qed.

Lemma clamp_never_above_maximum_witness :
  exists ws' w', clamp [15; 6; 10; 10] [50; 10; 15; 12] [80; 7; 14; 10] = Some ws'
    /\ ws' !! 0%nat = Some w' /\ w' <= 50.
Proof.
  apply (clamp_never_above_maximum _ _ _ 0%nat 80 50); [reflexivity..|lia].
Defined.

(** X6: the clamp always returns, keeps the number of columns, and clamping
    its result again changes nothing. *)
Theorem clamp_idempotent (mins maxs ws : list Z) :
  exists ws', clamp mins maxs ws = Some ws'
    /\ length ws' = length ws
    /\ clamp mins maxs ws' = Some ws'.
Proof.
  destruct (clamp_lookup mins maxs ws) as (ws' & Hrun & Hlen & Hlk).
  exists ws'. split; [exact Hrun|]. split; [exact Hlen|].
  destruct (clamp_lookup mins maxs ws') as (ws'' & Hrun' & _ & Hlk').
  rewrite Hrun'. f_equal. apply list_eq. intros i.
  rewrite Hlk', Hlk. destruct (ws !! i) as [w|]; [|reflexivity].
  cbn. rewrite clampVal_idempotent. reflexivity.
Qed.

(** ** The fit step: what it leaves alone and how much it takes *)

Lemma shrinkStep_fixed (mins : list Z) (i : nat) (st : shrinkState) :
  shrinkCol i = false -> shrinkStep mins i st = Some st.
Proof. intros H. unfold shrinkStep. rewrite H. reflexivity. Qed.

(** X7: the Size and Perms columns, at index 1 and 3, leave the fit step as
    they entered it, on every input. *)
Theorem fit_fixed_columns (mins ws : list Z) (terminalWidth : Z) :
  exists ws', fit mins terminalWidth ws = Some ws'
    /\ ws' !! 1%nat = ws !! 1%nat /\ ws' !! 3%nat = ws !! 3%nat.
Proof.
  assert (Hgen : exists ws', fit mins terminalWidth ws = Some ws'
            /\ forall i, shrinkCol i = false -> ws' !! i = ws !! i).
  { unfold fit. destruct (terminalWidth <? totalWidth ws); [|eauto].
    destruct (forFrom_invariant (shrinkStep mins)
      (fun _ st => length (widths st) = length ws
         /\ forall i, shrinkCol i = false -> widths st !! i = ws !! i)
      (length ws) 0%nat
      (mkShrink ws (GoInt.sub (totalWidth ws) terminalWidth)
         (initialShrinkable mins ws))) as (st & Hrun & _ & Hfix).
    - cbn. auto.
    - intros k st Hk [Hlen Hfix].
      destruct (shrinkCol k) eqn:Hcol.
      + destruct (lookup_lt_is_Some_2 (widths st) k ltac:(lia)) as [w Hw].
        destruct (shrinkStep_total mins k st w Hw) as (st' & Hstep & Hcase).
        exists st'. split; [exact Hstep|].
        destruct Hcase as [->|(v & _ & ->)]; [auto|].
        split; [rewrite length_insert; exact Hlen|].
        intros i Hi. rewrite list_lookup_insert_ne by congruence. auto.
      + exists st. split; [apply shrinkStep_fixed; exact Hcol | auto].
    - exists (widths st). unfold forRange. rewrite Hrun. cbn. auto. }
  destruct Hgen as (ws' & Hrun & Hfix).
  exists ws'. split; [exact Hrun|]. split; apply Hfix; reflexivity.
Qed.

(** One turn of the shrink loop, whether the slack covers the excess or
    not. *)
Lemma shrinkStep_general (mins : list Z) (k : nat) (wd : list Z)
    (e T w R : Z) :
  Forall GoInt.inRange mins ->
  wd !! k = Some w -> 0 <= w <= 2 ^ 31 + 1 ->
  0 <= R -> T = slackOf mins k w + R -> T <= 2 ^ 31 + 1 ->
  0 <= e <= 2 ^ 31 + 1 ->
  exists v e',
    shrinkStep mins k (mkShrink wd e T) = Some (mkShrink (<[k := v]> wd) e' R)
    /\ 0 <= e' <= e /\ v - e' = w - e
    /\ w - slackOf mins k w <= v <= w
    /\ (e <= T -> e' <= R)
    /\ (T <= e -> v = w - slackOf mins k w /\ e' - R = e - T).
Proof.
  intros Hr Hw Hwb HR HT HTb He.
  pose proof (lookupMin_pos mins k) as Hp.
  pose proof (lookupMin_le_maxInt mins k Hr) as Hm.
  unfold shrinkStep, slackOf in *. cbn [widths excess totalShrinkable].
  destruct (shrinkCol k).
  2:{ exists w, e. rewrite list_insert_id by exact Hw.
      replace R with T by lia. split; [reflexivity | lia]. }
  rewrite Hw. cbn.
  rewrite sub_exact by in_range.
  set (m := lookupMin mins k 4) in *.
  destruct (Z.ltb_spec 0 (w - m)) as [Hs|Hs].
  2:{ cbn. exists w, e. rewrite list_insert_id by exact Hw.
      replace R with T by lia. split; [reflexivity | lia]. }
  rewrite Z.max_r in HT by lia.
  destruct (Z.ltb_spec 0 T) as [Hpos|Hpos]; [|lia]. cbn.
  assert (Hprod : 0 <= (w - m) * e <= (2 ^ 31 + 1) * (2 ^ 31 + 1)).
  { split; [apply Z.mul_nonneg_nonneg; lia|].
    apply Z.mul_le_mono_nonneg; lia. }
  rewrite mul_exact by in_range.
  rewrite quo_exact by in_range.
  cbn.
  set (q := (w - m) * e / T).
  assert (Hq0 : 0 <= q) by (apply Z.div_pos; lia).
  assert (Hqe : q <= e).
  { apply Z.div_le_upper_bound; [lia|]. nia. }
  assert (Hqs : e <= T -> q <= w - m).
  { intros HeT. apply Z.div_le_upper_bound; [lia|]. nia. }
  assert (Hql : e <= T -> e + (w - m) - T <= q).
  { intros HeT. apply Z.div_le_lower_bound; [lia|]. nia. }
  assert (Hqg : T <= e -> w - m <= q).
  { intros HTe. apply Z.div_le_lower_bound; [lia|]. nia. }
  destruct (Z.ltb_spec (w - m) q) as [Hc|Hc].
  - rewrite !sub_exact by in_range.
    destruct (Z.ltb_spec (w - (w - m)) m) as [Hc'|_]; [lia|].
    exists (w - (w - m)), (e - (w - m)).
    replace (T - (w - m)) with R by lia.
    split; [reflexivity|].
    repeat split; try lia; intros H0;
      try specialize (Hqs H0); try specialize (Hql H0);
      try specialize (Hqg H0); lia.
  - rewrite !sub_exact by in_range.
    destruct (Z.ltb_spec (w - q) m) as [Hc'|_]; [lia|].
    exists (w - q), (e - q). replace (T - (w - m)) with R by lia.
    split; [reflexivity|].
    repeat split; try lia; intros H0;
      try specialize (Hqs H0); try specialize (Hql H0);
      try specialize (Hqg H0); lia.
Qed.

Lemma shrink_loop_general (mins ws : list Z) (E0 : Z) :
  Forall GoInt.inRange mins -> Forall (fun w => 0 <= w) ws ->
  sumZ ws <= 2 ^ 31 + 1 -> 0 <= E0 <= 2 ^ 31 + 1 ->
  exists st,
    forRange (length ws) (shrinkStep mins)
      (mkShrink ws E0 (shrinkableSlack mins ws)) = Some st
    /\ length (widths st) = length ws
    /\ sumZ (widths st) = sumZ ws - Z.min E0 (shrinkableSlack mins ws)
    /\ (forall i w, ws !! i = Some w ->
          exists v, widths st !! i = Some v
            /\ w - slackOf mins i w <= v <= w)
    /\ (shrinkableSlack mins ws <= E0 ->
          forall i w, ws !! i = Some w ->
            widths st !! i = Some (w - slackOf mins i w)).
Proof.
  intros Hr Hnn Hsum HE. set (T0 := shrinkableSlack mins ws).
  destruct (forFrom_invariant (shrinkStep mins)
    (fun k st => length (widths st) = length ws
       /\ (forall j, (k <= j)%nat -> widths st !! j = ws !! j)
       /\ (forall j w, (j < k)%nat -> ws !! j = Some w ->
             exists v, widths st !! j = Some v
               /\ w - slackOf mins j w <= v <= w)
       /\ 0 <= excess st <= E0
       /\ totalShrinkable st = slackFrom mins k (drop k ws)
       /\ sumZ (widths st) - excess st = sumZ ws - E0
       /\ (E0 <= T0 -> excess st <= totalShrinkable st)
       /\ (T0 <= E0 ->
             excess st - totalShrinkable st = E0 - T0
             /\ forall j w, (j < k)%nat -> ws !! j = Some w ->
                  widths st !! j = Some (w - slackOf mins j w)))
    (length ws) 0%nat (mkShrink ws E0 T0))
    as (st & Hrun & Hlen & _ & Hbnd & He & HT & Hs & Hle & Hge).
  - cbn [widths excess totalShrinkable]. rewrite drop_0.
    split; [reflexivity|]. split; [auto|]. split; [intros; lia|].
    split; [lia|]. split; [reflexivity|]. split; [lia|].
    split; [auto|]. intros _. split; [unfold T0; lia | intros; lia].
  - intros k [wd e T] Hk (Hlen & Hrest & Hbnd & He & HT & Hs & Hle & Hge).
    cbn [widths excess totalShrinkable] in *.
    destruct (lookup_lt_is_Some_2 ws k ltac:(lia)) as [w Hw].
    assert (Hwd : wd !! k = Some w) by (rewrite Hrest by lia; exact Hw).
    rewrite (drop_S ws w k Hw) in HT. cbn [slackFrom] in HT.
    assert (Hnn' : Forall (fun w => 0 <= w) (drop (Datatypes.S k) ws))
      by (apply Forall_drop; exact Hnn).
    pose proof (slackFrom_bounds mins (Datatypes.S k) _ Hnn') as HR.
    assert (Hw0 : 0 <= w) by (rewrite Forall_lookup in Hnn; exact (Hnn k w Hw)).
    pose proof (sumZ_lookup_le ws k w Hnn Hw) as Hwle.
    assert (HTle : T <= 2 ^ 31 + 1).
    { pose proof (slackFrom_bounds mins k (drop k ws)
                    (Forall_drop _ _ _ Hnn)) as Hk'.
      rewrite (drop_S ws w k Hw) in Hk'. cbn [slackFrom] in Hk'.
      pose proof (sumZ_drop_le ws k Hnn). rewrite (drop_S ws w k Hw) in *.
      lia. }
    destruct (shrinkStep_general mins k wd e T w
                (slackFrom mins (Datatypes.S k) (drop (Datatypes.S k) ws)))
      as (v & e' & Hstep & He' & Hve & Hv & HleR & HgeR);
      try assumption; try lia.
    eexists. split; [exact Hstep|]. cbn [widths excess totalShrinkable].
    split; [rewrite length_insert; exact Hlen|].
    split; [intros j Hj; rewrite list_lookup_insert_ne by lia;
            apply Hrest; lia|].
    split.
    { intros j x Hj Hx. destruct (decide (j = k)) as [->|Hne].
      - rewrite list_lookup_insert_eq by lia.
        assert (x = w) by congruence. subst x. eauto.
      - rewrite list_lookup_insert_ne by congruence. apply Hbnd; [lia|exact Hx]. }
    split; [lia|]. split; [reflexivity|].
    split; [rewrite (sumZ_insert wd k w v Hwd); lia|].
    split; [intros H0; apply HleR; apply Hle; exact H0|].
    intros H0. destruct (Hge H0) as [Hd Hall].
    destruct (HgeR ltac:(lia)) as [-> Hd']. split; [lia|].
    intros j x Hj Hx. destruct (decide (j = k)) as [->|Hne].
    + rewrite list_lookup_insert_eq by lia. congruence.
    + rewrite list_lookup_insert_ne by congruence. apply Hall; [lia|exact Hx].
  - exists st. rewrite drop_ge in HT by lia. cbn [slackFrom] in HT.
    split; [exact Hrun|]. split; [exact Hlen|]. split.
    { destruct (Z.le_ge_cases E0 T0) as [H0|H0].
      - specialize (Hle H0). rewrite Z.min_l by exact H0. lia.
      - destruct (Hge H0) as [Hd _]. rewrite Z.min_r by exact H0. lia. }
    split.
    { intros i w Hw. apply Hbnd; [|exact Hw]. apply lookup_lt_Some in Hw. lia. }
    intros H0 i w Hw. destruct (Hge H0) as [_ Hall].
    apply Hall; [|exact Hw]. apply lookup_lt_Some in Hw. lia.
Qed.

(** The fit step away from the edge of the [int] range: what it returns. *)
Lemma fit_run (mins ws : list Z) (terminalWidth : Z) :
  Forall (fun w => 0 <= w) ws -> Forall GoInt.inRange mins ->
  0 <= terminalWidth -> renderedWidth ws <= 2 ^ 31 ->
  exists ws', fit mins terminalWidth ws = Some ws'
    /\ length ws' = length ws
    /\ renderedWidth ws'
       = Z.max (Z.min (renderedWidth ws) terminalWidth)
               (renderedWidth ws - shrinkableSlack mins ws)
    /\ (forall i w, ws !! i = Some w ->
          exists w', ws' !! i = Some w' /\ w - slackOf mins i w <= w' <= w)
    /\ (shrinkableSlack mins ws < renderedWidth ws - terminalWidth ->
          forall i w, ws !! i = Some w ->
            ws' !! i = Some (w - slackOf mins i w)).
Proof.
  intros Hnn Hr Htw Hb. unfold fit.
  pose proof (sumZ_nonneg ws Hnn) as Hs0.
  pose proof (borderOverhead_lower (length ws)) as Hbo.
  pose proof (slackFrom_bounds mins 0 ws Hnn) as Hsl.
  fold (shrinkableSlack mins ws) in Hsl.
  rewrite totalWidth_exact by (try assumption; unfold GoInt.maxInt; lia).
  destruct (Z.ltb_spec terminalWidth (renderedWidth ws)) as [Hlt|Hge].
  - rewrite sub_exact
      by (unfold GoInt.inRange, GoInt.minInt, GoInt.maxInt, renderedWidth in *;
          lia).
    assert (Hinit : initialShrinkable mins ws = shrinkableSlack mins ws).
    { unfold initialShrinkable, shrinkableSlack.
      rewrite slack_loop_exact;
        try assumption; unfold GoInt.maxInt, renderedWidth in *; lia. }
    rewrite Hinit.
    destruct (shrink_loop_general mins ws (renderedWidth ws - terminalWidth))
      as (st & Hrun & Hlen & Hsum & Hbnd & Hall); try assumption;
      try (unfold renderedWidth in *; lia).
    exists (widths st). rewrite Hrun. cbn.
    split; [reflexivity|]. split; [exact Hlen|].
    split; [unfold renderedWidth in *; rewrite Hlen, Hsum; lia|].
    split; [exact Hbnd|]. intros Hunc. apply Hall. lia.
  - exists ws. split; [reflexivity|]. split; [reflexivity|]. split; [lia|].
    split; [|lia].
    intros i w Hw. exists w. split; [exact Hw|].
    assert (Hw0 : 0 <= w) by (rewrite Forall_lookup in Hnn; exact (Hnn i w Hw)).
    pose proof (slackOf_bounds mins i w Hw0). lia.
Qed.

(** X8: what the fit step takes from the table: when the total on entry
    exceeds the budget, it removes the excess or the whole shrinkable slack,
    whichever is smaller; no column is widened and none loses more than its
    slack. So the final total is the budget when the slack covers the
    excess, and stays above the budget by the uncovered rest when it does
    not. *)
Theorem fit_takes_min_of_excess_and_slack
    (mins ws : list Z) (terminalWidth : Z) :
  Forall (fun w => 0 <= w) ws -> Forall GoInt.inRange mins ->
  0 <= terminalWidth -> renderedWidth ws <= 2 ^ 31 ->
  exists ws', fit mins terminalWidth ws = Some ws'
    /\ length ws' = length ws
    /\ renderedWidth ws'
       = renderedWidth ws
         - Z.min (Z.max 0 (renderedWidth ws - terminalWidth))
                 (shrinkableSlack mins ws)
    /\ forall i w, ws !! i = Some w ->
         exists w', ws' !! i = Some w' /\ w - slackOf mins i w <= w' <= w.
Proof.
  intros Hnn Hr Htw Hb.
  destruct (fit_run mins ws terminalWidth Hnn Hr Htw Hb)
    as (ws' & Hrun & Hlen & Hw & Hbnd & _).
  pose proof (slackFrom_bounds mins 0 ws Hnn) as Hsl.
  fold (shrinkableSlack mins ws) in Hsl.
  exists ws'. split; [exact Hrun|]. split; [exact Hlen|].
  split; [rewrite Hw; lia | exact Hbnd].
Qed.

Lemma fit_takes_min_of_excess_and_slack_witness :
  exists ws', fit [15; 6; 10; 10] 52 [20; 9; 12; 10] = Some ws'
    /\ renderedWidth ws' = 55.
Proof.
  destruct (fit_takes_min_of_excess_and_slack
              [15; 6; 10; 10] [20; 9; 12; 10] 52)
    as (ws' & Hrun & _ & Hw & _).
  - repeat constructor; lia.
  - repeat constructor; vm_compute; discriminate.
  - lia.
  - vm_compute. discriminate.
  - exists ws'. split; [exact Hrun | exact Hw].
Defined.

(** X9: when the shrinkable slack does not cover the excess, every column
    other than Size and Perms that is above its minimum is cut to its minimum
    and the rest is left as it is; the table is then rendered wider than the
    budget. *)
Theorem fit_insufficient_slack (mins ws : list Z) (terminalWidth : Z) :
  Forall (fun w => 0 <= w) ws -> Forall GoInt.inRange mins ->
  0 <= terminalWidth -> renderedWidth ws <= 2 ^ 31 ->
  shrinkableSlack mins ws < renderedWidth ws - terminalWidth ->
  exists ws', fit mins terminalWidth ws = Some ws'
    /\ (forall i w, ws !! i = Some w ->
          ws' !! i = Some (w - slackOf mins i w))
    /\ terminalWidth < renderedWidth ws'.
Proof.
  intros Hnn Hr Htw Hb Hslack.
  destruct (fit_run mins ws terminalWidth Hnn Hr Htw Hb)
    as (ws' & Hrun & _ & Hw & _ & Hall).
  exists ws'. split; [exact Hrun|]. split; [exact (Hall Hslack)|].
  rewrite Hw. lia.
Qed.

Lemma fit_insufficient_slack_witness :
  exists ws', fit [15; 6; 10; 10] 52 [20; 9; 12; 10] = Some ws'
    /\ ws' !! 0%nat = Some 15 /\ 52 < renderedWidth ws'.
Proof.
  destruct (fit_insufficient_slack [15; 6; 10; 10] [20; 9; 12; 10] 52)
    as (ws' & Hrun & Hall & Hw).
  - repeat constructor; lia.
  - repeat constructor; vm_compute; discriminate.
  - lia.
  - vm_compute. discriminate.
  - vm_compute. reflexivity.
  - exists ws'. split; [exact Hrun|]. split; [|exact Hw].
    exact (Hall 0%nat 20 eq_refl).
Defined.

Lemma slackOf_settled (mins : list Z) (i : nat) (w : Z) :
  slackOf mins i (w - slackOf mins i w) = 0.
Proof.
  unfold slackOf. pose proof (lookupMin_pos mins i).
  destruct (shrinkCol i); lia.
Qed.

Lemma slackFrom_settled (mins : list Z) :
  forall (ws ws' : list Z) (i : nat),
    length ws' = length ws ->
    (forall j w, ws !! j = Some w ->
       ws' !! j = Some (w - slackOf mins (i + j) w)) ->
    slackFrom mins i ws' = 0.
Proof.
  induction ws as [|w ws IH]; intros [|w' ws'] i Hlen Hall;
    try discriminate; [reflexivity|].
  cbn [slackFrom].
  pose proof (Hall 0%nat w eq_refl) as H0. cbn in H0.
  rewrite Nat.add_0_r in H0. injection H0 as ->.
  rewrite slackOf_settled, (IH ws' (Datatypes.S i)); [reflexivity| |].
  - simpl in Hlen. lia.
  - intros j x Hx. specialize (Hall (Datatypes.S j) x Hx).
    change (ws' !! j = Some (x - slackOf mins (i + Datatypes.S j) x)) in Hall.
    rewrite Hall.
    replace (i + Datatypes.S j)%nat with (Datatypes.S i + j)%nat by lia.
    reflexivity.
Qed.

Lemma slackFrom_zero_lookup (mins : list Z) :
  forall (ws : list Z) (i j : nat) (w : Z),
    Forall (fun w => 0 <= w) ws -> slackFrom mins i ws = 0 ->
    ws !! j = Some w -> slackOf mins (i + j) w = 0.
Proof.
  induction ws as [|x ws IH]; intros i j w Hnn Hz Hw; [discriminate|].
  apply Forall_cons in Hnn as [Hx Hnn]. cbn [slackFrom] in Hz.
  pose proof (slackOf_bounds mins i x Hx).
  pose proof (slackFrom_bounds mins (Datatypes.S i) ws Hnn).
  destruct j as [|j].
  - injection Hw as <-. rewrite Nat.add_0_r. lia.
  - replace (i + Datatypes.S j)%nat with (Datatypes.S i + j)%nat by lia.
    apply (IH (Datatypes.S i) j w Hnn); [lia | exact Hw].
Qed.

(** The first run of the fit step leaves widths that either fit or have no
    shrinkable slack left. *)
Lemma fit_result_settled (mins ws : list Z) (terminalWidth : Z) :
  Forall (fun w => 0 <= w) ws -> Forall GoInt.inRange mins ->
  0 <= terminalWidth -> renderedWidth ws <= 2 ^ 31 ->
  exists ws', fit mins terminalWidth ws = Some ws'
    /\ length ws' = length ws
    /\ Forall (fun w => 0 <= w) ws'
    /\ renderedWidth ws' <= renderedWidth ws
    /\ (renderedWidth ws' <= terminalWidth \/ shrinkableSlack mins ws' = 0).
Proof.
  intros Hnn Hr Htw Hb.
  destruct (fit_run mins ws terminalWidth Hnn Hr Htw Hb)
    as (ws' & Hrun & Hlen & Hw & Hbnd & Hall).
  pose proof (slackFrom_bounds mins 0 ws Hnn) as Hsl.
  fold (shrinkableSlack mins ws) in Hsl.
  exists ws'. split; [exact Hrun|]. split; [exact Hlen|]. split.
  { apply Forall_lookup. intros i v Hv.
    destruct (lookup_lt_is_Some_2 ws i) as [w Hw0].
    { apply lookup_lt_Some in Hv. lia. }
    destruct (Hbnd i w Hw0) as (v' & Hv' & Hlo).
    assert (v' = v) by congruence. subst v'.
    assert (0 <= w) by (rewrite Forall_lookup in Hnn; exact (Hnn i w Hw0)).
    pose proof (slackOf_bounds mins i w ltac:(assumption)). lia. }
  split; [rewrite Hw; lia|].
  destruct (Z.le_gt_cases (renderedWidth ws - terminalWidth)
              (shrinkableSlack mins ws)) as [Hcov|Hunc].
  - left. rewrite Hw. lia.
  - right. unfold shrinkableSlack at 1.
    apply (slackFrom_settled mins ws ws' 0 Hlen).
    intros j w Hw0. apply Hall; [lia | exact Hw0].
Qed.

(** X10: running the fit step on its own result changes nothing. *)
Theorem fit_idempotent (mins ws : list Z) (terminalWidth : Z) :
  Forall (fun w => 0 <= w) ws -> Forall GoInt.inRange mins ->
  0 <= terminalWidth -> renderedWidth ws <= 2 ^ 31 ->
  exists ws', fit mins terminalWidth ws = Some ws'
    /\ fit mins terminalWidth ws' = Some ws'.
Proof.
  intros Hnn Hr Htw Hb.
  destruct (fit_result_settled mins ws terminalWidth Hnn Hr Htw Hb)
    as (ws' & Hrun & Hlen & Hnn' & Hle & Hcase).
  exists ws'. split; [exact Hrun|]. unfold fit.
  pose proof (sumZ_nonneg ws' Hnn') as Hs0.
  pose proof (borderOverhead_lower (length ws')) as Hbo.
  rewrite totalWidth_exact by (try assumption; unfold GoInt.maxInt; lia).
  destruct (Z.ltb_spec terminalWidth (renderedWidth ws')) as [Hlt|Hge];
    [|reflexivity].
  destruct Hcase as [Hfit|Hzero]; [lia|].
  rewrite sub_exact
    by (unfold GoInt.inRange, GoInt.minInt, GoInt.maxInt, renderedWidth in *;
        lia).
  assert (Hinit : initialShrinkable mins ws' = shrinkableSlack mins ws').
  { unfold initialShrinkable, shrinkableSlack.
    rewrite slack_loop_exact;
      try assumption; unfold GoInt.maxInt, renderedWidth in *; lia. }
  rewrite Hinit.
  destruct (shrink_loop_general mins ws' (renderedWidth ws' - terminalWidth))
    as (st & Hrun' & Hlen' & _ & _ & Hall); try assumption;
    try (unfold renderedWidth in *; lia).
  rewrite Hrun'. cbn. f_equal. apply list_eq. intros i.
  destruct (ws' !! i) as [w|] eqn:Hw.
  - rewrite (Hall ltac:(lia) i w Hw).
    pose proof (slackFrom_zero_lookup mins ws' 0 i w Hnn' Hzero Hw) as Hz.
    cbn in Hz. rewrite Hz. f_equal. lia.
  - apply lookup_ge_None. apply lookup_ge_None in Hw. lia.
Qed.

Lemma fit_idempotent_witness :
  exists ws', fit [15; 6; 10; 10] 60 [22; 7; 14; 10] = Some ws'
    /\ fit [15; 6; 10; 10] 60 ws' = Some ws'.
Proof.
  apply fit_idempotent.
  - repeat constructor; lia.
  - repeat constructor; vm_compute; discriminate.
  - lia.
  - vm_compute. discriminate.
Defined.

(** ** [printTable]: what reaches the terminal *)

Lemma columnConstraints_max (showGit : bool) (i : nat) (w : Z) :
  (i < length (snd (columnConstraints showGit)))%nat ->
  exists M, snd (columnConstraints showGit) !! i = Some M
    /\ clampVal (fst (columnConstraints showGit))
         (snd (columnConstraints showGit)) i w <= M.
Proof.
  intros Hi.
  destruct showGit; cbn in Hi;
    repeat (destruct i as [|i]; [
      eexists; split; [reflexivity|];
      eapply clampVal_max; [reflexivity | reflexivity] |]);
    lia.
Qed.

(** A rendered table went through the clamp and the floor check. *)
Lemma printTable_rendered_inv (showGit : bool) (files : list fileRow)
    (getTerminalWidth : Z) (ws : list Z) :
  printTable showGit files getTerminalWidth = Some (Rendered ws) ->
  exists clamped,
    length clamped = length (headers showGit)
    /\ (forall i c, clamped !! i = Some c ->
          lookupMin (fst (columnConstraints showGit)) i 4 <= c
          /\ exists M, snd (columnConstraints showGit) !! i = Some M /\ c <= M)
    /\ (if showGit then 61 else 52) <= Z.max getTerminalWidth 40
    /\ fit (fst (columnConstraints showGit)) (Z.max getTerminalWidth 40) clamped
       = Some ws
    /\ exists natural,
         calculateDisplayWidths
           (headers showGit :: map (rowCells showGit) files) = Some natural
         /\ forall i, clamped !! i
              = clampVal (fst (columnConstraints showGit))
                  (snd (columnConstraints showGit)) i <$> natural !! i.
Proof.
  unfold printTable. destruct files as [|f files]; [discriminate|].
  set (data := headers showGit :: map (rowCells showGit) (f :: files)).
  set (ncols := length (headers showGit)).
  pose proof (columnConstraints_min showGit) as Hmin.
  pose proof (columnConstraints_max showGit) as Hmax.
  assert (Hcols : length (fst (columnConstraints showGit)) = ncols
                  /\ length (snd (columnConstraints showGit)) = ncols)
    by (destruct showGit; split; reflexivity).
  assert (Hfloor : feasibilityFloor (fst (columnConstraints showGit))
                     (columnCount data) = if showGit then 61 else 52)
    by (destruct showGit; reflexivity).
  assert (Hrange : feasibilityFloor (fst (columnConstraints showGit))
                     (columnCount data) <= GoInt.maxInt)
    by (rewrite Hfloor; destruct showGit; vm_compute; discriminate).
  destruct (columnConstraints showGit) as [mins maxs]. cbn [fst snd] in *.
  destruct Hcols as [Hcmin Hcmax].
  unfold layout.
  destruct (calculateDisplayWidths_total data
              (printTable_grid_rectangular showGit (f :: files)))
    as (natural & Hcalc & Hn).
  rewrite Hcalc.
  change (columnCount data) with ncols in Hn.
  cbn [mbind option_bind].
  destruct (clamp_lookup mins maxs natural) as (cl & -> & Hlen & Hlk).
  cbn [mbind option_bind].
  replace (length cl) with (columnCount data)
    by (change (columnCount data) with ncols; lia).
  rewrite floor_exact by exact Hrange. rewrite Hfloor.
  destruct (Z.ltb_spec (Z.max getTerminalWidth 40)
              (if showGit then 61 else 52)) as [|Hge]; [discriminate|].
  destruct (fit mins (Z.max getTerminalWidth 40) cl) as [ws'|] eqn:Hfit;
    [|discriminate].
  cbn [mbind option_bind]. intros [= <-].
  exists cl. split; [lia|].
  split; [|split; [exact Hge | split; [exact Hfit | exists natural; auto]]].
  intros i c Hc. assert (Hi : (i < ncols)%nat)
    by (apply lookup_lt_Some in Hc; lia).
  rewrite Hlk in Hc. destruct (natural !! i) as [x|]; [|discriminate].
  injection Hc as <-. split; [apply Hmin; lia|]. apply Hmax. lia.
Qed.

(** From a clamped vector of the program's table to the side conditions
    of [fit_run]. *)
Lemma printTable_fit_run (showGit : bool) (clamped ws : list Z) (tw : Z) :
  length clamped = length (headers showGit) ->
  (forall i c, clamped !! i = Some c ->
     lookupMin (fst (columnConstraints showGit)) i 4 <= c
     /\ exists M, snd (columnConstraints showGit) !! i = Some M /\ c <= M) ->
  40 <= tw ->
  fit (fst (columnConstraints showGit)) tw clamped = Some ws ->
  length ws = length clamped
  /\ renderedWidth ws
     = Z.max (Z.min (renderedWidth clamped) tw)
         (renderedWidth clamped
          - shrinkableSlack (fst (columnConstraints showGit)) clamped)
  /\ (forall i c, clamped !! i = Some c ->
        exists w, ws !! i = Some w
          /\ c - slackOf (fst (columnConstraints showGit)) i c <= w <= c).
Proof.
  intros Hlen Hb Htw Hfit.
  assert (Hnn : Forall (fun w => 0 <= w) clamped).
  { apply Forall_lookup. intros i c Hc. destruct (Hb i c Hc) as [Hlo _].
    pose proof (lookupMin_pos (fst (columnConstraints showGit)) i). lia. }
  assert (Hr : Forall GoInt.inRange (fst (columnConstraints showGit))).
  { destruct showGit; repeat constructor; vm_compute; discriminate. }
  assert (Hbig : renderedWidth clamped <= 2 ^ 31).
  { assert (Hle : forall i c, clamped !! i = Some c -> c <= 50).
    { intros i c Hc. destruct (Hb i c Hc) as [_ (M & HM & HcM)].
      assert (M <= 50); [|lia].
      destruct showGit; cbn in HM;
        repeat (destruct i as [|i]; [injection HM as <-; lia|]);
        discriminate. }
    assert (Hn : (length clamped <= 5)%nat)
      by (rewrite Hlen; destruct showGit; cbn; lia).
    unfold renderedWidth, borderOverhead.
    assert (Hs : sumZ clamped <= 50 * Z.of_nat (length clamped)).
    { clear -Hle. induction clamped as [|x l IH]; [cbn; lia|].
      pose proof (Hle 0%nat x eq_refl).
      cbn [sumZ fold_right length].
      assert (sumZ l <= 50 * Z.of_nat (length l)).
      { apply IH. intros i c Hc. exact (Hle (Datatypes.S i) c Hc). }
      unfold sumZ in *. lia. }
    lia. }
  destruct (fit_run (fst (columnConstraints showGit)) clamped tw
              Hnn Hr ltac:(lia) Hbig) as (ws' & Hrun & Hl & Hw & Hbnd & _).
  rewrite Hfit in Hrun. injection Hrun as <-. auto.
Qed.

(** X11: what [printTable] does with a listing: nothing when it is empty; the
    advisory message when the budget, which is [getTerminalWidth()] or 40 if
    that is more, is below 52 (61 with the Git column); otherwise a table
    with one width per header column. It never panics. *)
Theorem printTable_outcome (showGit : bool) (files : list fileRow)
    (getTerminalWidth : Z) :
  printTable showGit [] getTerminalWidth = Some NoOutput
  /\ (files <> [] ->
      (Z.max getTerminalWidth 40 < (if showGit then 61 else 52) ->
         printTable showGit files getTerminalWidth = Some TooSmall)
      /\ ((if showGit then 61 else 52) <= Z.max getTerminalWidth 40 ->
            exists ws,
              printTable showGit files getTerminalWidth = Some (Rendered ws)
              /\ length ws = length (headers showGit))).
Proof.
  split; [reflexivity|]. intros Hne.
  destruct files as [|f files]; [congruence|].
  unfold printTable.
  set (data := headers showGit :: map (rowCells showGit) (f :: files)).
  destruct (columnConstraints showGit) as [mins maxs] eqn:Hcc.
  assert (Hfloor : feasibilityFloor mins (columnCount data)
                   = if showGit then 61 else 52).
  { destruct showGit; injection Hcc as <- <-; reflexivity. }
  destruct (layout_floor_check mins maxs data (Z.max getTerminalWidth 40)
              (printTable_grid_rectangular showGit (f :: files)))
    as (clamped & Hlen & ->).
  { rewrite Hfloor. destruct showGit; vm_compute; discriminate. }
  rewrite Hfloor. split; intros Hcmp.
  - destruct (Z.ltb_spec (Z.max getTerminalWidth 40)
                (if showGit then 61 else 52)); [reflexivity | lia].
  - destruct (Z.ltb_spec (Z.max getTerminalWidth 40)
                (if showGit then 61 else 52)); [lia|].
    destruct (fit_minimum_aux mins clamped (Z.max getTerminalWidth 40))
      as (ws & -> & Hl & _).
    exists ws. split; [reflexivity|]. rewrite Hl, Hlen. reflexivity.
Qed.

Lemma printTable_outcome_witness :
  printTable false [mkRow "a.txt" "512 B" "2 days ago" "-rw-r--r--" ""]%string 30
  = Some TooSmall.
Proof.
  apply (proj2 (printTable_outcome false
                  [mkRow "a.txt" "512 B" "2 days ago" "-rw-r--r--" ""]%string 30)).
  - discriminate.
  - reflexivity.
Defined.

(** X12: every column of a rendered table is between its declared minimum and
    its declared maximum. *)
Theorem printTable_rendered_within_bounds (showGit : bool)
    (files : list fileRow) (getTerminalWidth : Z) (ws : list Z) :
  printTable showGit files getTerminalWidth = Some (Rendered ws) ->
  forall i w, ws !! i = Some w ->
    exists m M,
      fst (columnConstraints showGit) !! i = Some m
      /\ snd (columnConstraints showGit) !! i = Some M
      /\ m <= w <= M.
Proof.
  intros Hrun.
  destruct (printTable_rendered_minimum showGit files getTerminalWidth ws Hrun)
    as [Hlenws Hmin].
  destruct (printTable_rendered_inv showGit files getTerminalWidth ws Hrun)
    as (cl & Hlen & Hb & Hfloor & Hfit & _).
  destruct (printTable_fit_run showGit cl ws (Z.max getTerminalWidth 40)
              Hlen Hb ltac:(lia) Hfit) as (Hl & _ & Hbnd).
  intros i w Hw.
  destruct (lookup_lt_is_Some_2 cl i) as [c Hc].
  { apply lookup_lt_Some in Hw. lia. }
  destruct (Hb i c Hc) as [_ (M & HM & HcM)].
  destruct (Hbnd i c Hc) as (w' & Hw' & Hle).
  assert (w' = w) by congruence. subst w'.
  specialize (Hmin i w Hw).
  assert (Hm : exists m, fst (columnConstraints showGit) !! i = Some m
                 /\ m = lookupMin (fst (columnConstraints showGit)) i 4).
  { apply lookup_lt_Some in Hc. rewrite Hlen in Hc.
    destruct showGit; cbn in Hc;
      repeat (destruct i as [|i]; [eexists; split; reflexivity|]); lia. }
  destruct Hm as (m & Hm & ->).
  exists (lookupMin (fst (columnConstraints showGit)) i 4), M.
  split; [exact Hm|]. split; [exact HM|]. lia.
Qed.

Lemma printTable_rendered_within_bounds_witness :
  exists m M, [15; 6; 10; 10] !! 0%nat = Some m
    /\ [50; 10; 15; 12] !! 0%nat = Some M /\ m <= 15 <= M.
Proof.
  exact (printTable_rendered_within_bounds false
           [mkRow "a.txt" "1023.9 KB" "2 days ago" "-rw-r--r--" ""]%string 52
           [15; 9; 10; 10] eq_refl 0%nat 15 eq_refl).
Defined.

(** X13: a rendered table overhangs the budget by no more than what the Size
    and Perms columns hold above their minimums of 6 and 10: at most 6 cells
    in all, and nothing when both are at their minimum. *)
Theorem printTable_overhang (showGit : bool) (files : list fileRow)
    (getTerminalWidth : Z) (ws : list Z) :
  printTable showGit files getTerminalWidth = Some (Rendered ws) ->
  exists size perms,
    ws !! 1%nat = Some size /\ ws !! 3%nat = Some perms
    /\ 6 <= size <= 10 /\ 10 <= perms <= 12
    /\ renderedWidth ws
       <= Z.max getTerminalWidth 40 + (size - 6) + (perms - 10).
Proof.
  intros Hrun.
  destruct (printTable_rendered_inv showGit files getTerminalWidth ws Hrun)
    as (cl & Hlen & Hb & Hfloor & Hfit & _).
  destruct (printTable_fit_run showGit cl ws (Z.max getTerminalWidth 40)
              Hlen Hb ltac:(lia) Hfit) as (Hl & Hw & Hbnd).
  set (tw := Z.max getTerminalWidth 40) in *. clearbody tw.
  destruct showGit.
  - destruct cl as [|a [|b [|c [|d [|e [|]]]]]]; try discriminate.
    destruct (Hb 0%nat a eq_refl) as [Ha (? & [= <-] & Ha')].
    destruct (Hb 1%nat b eq_refl) as [Hb1 (? & [= <-] & Hb1')].
    destruct (Hb 2%nat c eq_refl) as [Hc (? & [= <-] & Hc')].
    destruct (Hb 3%nat d eq_refl) as [Hd (? & [= <-] & Hd')].
    destruct (Hb 4%nat e eq_refl) as [He (? & [= <-] & He')].
    destruct (Hbnd 1%nat b eq_refl) as (s & Hs & Hsb).
    destruct (Hbnd 3%nat d eq_refl) as (p & Hp & Hpd).
    exists s, p. split; [exact Hs|]. split; [exact Hp|].
    rewrite Hw. clear Hw Hbnd Hfit Hb Hrun.
    unfold renderedWidth, borderOverhead, sumZ.
    cbn -[Z.max Z.min Z.add Z.sub Z.mul Z.of_nat] in *. lia.
  - destruct cl as [|a [|b [|c [|d [|]]]]]; try discriminate.
    destruct (Hb 0%nat a eq_refl) as [Ha (? & [= <-] & Ha')].
    destruct (Hb 1%nat b eq_refl) as [Hb1 (? & [= <-] & Hb1')].
    destruct (Hb 2%nat c eq_refl) as [Hc (? & [= <-] & Hc')].
    destruct (Hb 3%nat d eq_refl) as [Hd (? & [= <-] & Hd')].
    destruct (Hbnd 1%nat b eq_refl) as (s & Hs & Hsb).
    destruct (Hbnd 3%nat d eq_refl) as (p & Hp & Hpd).
    exists s, p. split; [exact Hs|]. split; [exact Hp|].
    rewrite Hw. clear Hw Hbnd Hfit Hb Hrun.
    unfold renderedWidth, borderOverhead, sumZ.
    cbn -[Z.max Z.min Z.add Z.sub Z.mul Z.of_nat] in *. lia.
Qed.

Lemma printTable_overhang_witness :
  exists size perms,
    [15; 9; 10; 10] !! 1%nat = Some size /\ [15; 9; 10; 10] !! 3%nat = Some perms
    /\ 6 <= size <= 10 /\ 10 <= perms <= 12
    /\ renderedWidth [15; 9; 10; 10] <= Z.max 52 40 + (size - 6) + (perms - 10).
Proof.
  exact (printTable_overhang false
           [mkRow "a.txt" "1023.9 KB" "2 days ago" "-rw-r--r--" ""]%string 52
           [15; 9; 10; 10] eq_refl).
Defined.

(** ** [formatSize]: the divisor goes with the unit *)

Lemma unitLoop_div (k : nat) :
  forall n div exp,
    1024 ^ Z.of_nat k <= n < 1024 ^ (Z.of_nat k + 1) ->
    0 < div -> div * 1024 ^ Z.of_nat k <= GoInt.maxInt ->
    fst (unitLoop n div exp) = div * 1024 ^ Z.of_nat k.
Proof.
  induction k as [|k IH]; intros n div exp Hn Hdiv Hmax.
  - change (1024 ^ (Z.of_nat 0 + 1)) with 1024 in Hn.
    rewrite unitLoop_stop by lia. cbn. lia.
  - assert (Hpow : 1024 ^ Z.of_nat (Datatypes.S k) = 1024 * 1024 ^ Z.of_nat k).
    { rewrite Nat2Z.inj_succ, Z.pow_succ_r by lia. reflexivity. }
    assert (Hpow' : 1024 ^ (Z.of_nat (Datatypes.S k) + 1)
                    = 1024 * 1024 ^ (Z.of_nat k + 1)).
    { rewrite Nat2Z.inj_succ.
      replace (Z.succ (Z.of_nat k) + 1) with (Z.succ (Z.of_nat k + 1)) by lia.
      rewrite Z.pow_succ_r by lia. reflexivity. }
    assert (Hk : 0 < 1024 ^ Z.of_nat k) by (apply Z.pow_pos_nonneg; lia).
    rewrite unitLoop_turn by lia.
    assert (Hd : div * 1024 <= div * 1024 * 1024 ^ Z.of_nat k) by nia.
    rewrite mul_exact by (unfold GoInt.inRange, GoInt.minInt, GoInt.maxInt in *; nia).
    rewrite IH; [rewrite Hpow; ring| |lia|rewrite Hpow in Hmax; nia].
    rewrite Z.quot_div_nonneg by lia. split.
    + apply Z.div_le_lower_bound; lia.
    + apply Z.div_lt_upper_bound; lia.
Qed.

Section FormatSizeUnit.

Variable sprintfBytes : Z -> string.
Variable sprintfUnit : Z -> Z -> string -> string.
Variables fgCyan fgHiWhite : string -> string.

(** X14: for a file of 1024 bytes or more, below 1024^5, [formatSize] divides
    by the largest power of 1024 that the size reaches and names the unit of
    that power: the divisor is [1024 ^ (exp + 1)] for the unit at index
    [exp], and the quotient handed to [Sprintf] is at least 1 and below
    1024. This is the quotient before it is rounded to one decimal. *)
Theorem formatSize_largest_unit (size : Z) :
  1024 <= size < 1024 ^ 5 ->
  exists div exp u,
    formatSize sprintfBytes sprintfUnit fgCyan fgHiWhite size false
      = Some (fgHiWhite (sprintfUnit size div u))
    /\ 0 <= exp <= 3 /\ units !! Z.to_nat exp = Some u
    /\ div = 1024 ^ (exp + 1)
    /\ div <= size < 1024 * div.
Proof.
  intros Hs.
  assert (Hn : 1 <= Z.quot size 1024 < 1024 ^ 4).
  { rewrite Z.quot_div_nonneg by lia. split.
    - apply Z.div_le_lower_bound; lia.
    - apply Z.div_lt_upper_bound; lia. }
  assert (Hsz : 1024 * Z.quot size 1024 <= size
                < 1024 * Z.quot size 1024 + 1024).
  { rewrite Z.quot_div_nonneg by lia.
    pose proof (Z.mul_div_le size 1024 ltac:(lia)).
    pose proof (Z.mul_succ_div_gt size 1024 ltac:(lia)). lia. }
  set (n := Z.quot size 1024) in *.
  assert (Hk : exists k : nat, (k <= 3)%nat
            /\ 1024 ^ Z.of_nat k <= n < 1024 ^ (Z.of_nat k + 1)).
  { destruct (Z_lt_dec n 1024); [exists 0%nat; cbn; lia|].
    destruct (Z_lt_dec n (1024 ^ 2)); [exists 1%nat; cbn; lia|].
    destruct (Z_lt_dec n (1024 ^ 3)); [exists 2%nat; cbn; lia|].
    exists 3%nat. cbn. lia. }
  destruct Hk as (k & Hk3 & Hk).
  assert (Hkp : 1024 ^ Z.of_nat k <= 1024 ^ 3).
  { apply Z.pow_le_mono_r; lia. }
  pose proof (unitLoop_exp k n 1024 0 Hk ltac:(lia)
                ltac:(unfold GoInt.maxInt; lia)) as Hexp.
  pose proof (unitLoop_div k n 1024 0 Hk ltac:(lia)
                ltac:(unfold GoInt.maxInt; lia)) as Hdiv.
  unfold formatSize.
  destruct (Z.ltb_spec size 1024) as [Hlt|_]; [lia|].
  fold n. destruct (unitLoop n 1024 0) as [div exp]. cbn [fst snd] in *.
  subst div exp.
  destruct (unitAt_some (0 + Z.of_nat k) ltac:(lia)) as [u Hu].
  rewrite Hu. cbn [mbind option_bind].
  exists (1024 * 1024 ^ Z.of_nat k), (0 + Z.of_nat k), u.
  split; [reflexivity|]. split; [lia|]. split.
  { unfold unitAt in Hu. destruct (Z.ltb_spec (0 + Z.of_nat k) 0); [lia|].
    exact Hu. }
  split.
  { replace (0 + Z.of_nat k + 1) with (Z.succ (Z.of_nat k)) by lia.
    rewrite Z.pow_succ_r by lia. reflexivity. }
  assert (Hpow' : 1024 ^ (Z.of_nat k + 1) = 1024 * 1024 ^ Z.of_nat k).
  { replace (Z.of_nat k + 1) with (Z.succ (Z.of_nat k)) by lia.
    rewrite Z.pow_succ_r by lia. reflexivity. }
  nia.
Qed.

End FormatSizeUnit.

Lemma formatSize_largest_unit_witness :
  exists div exp u,
    formatSize (fun _ => "512 B"%string) (fun _ _ u => u) id id 1536 false
      = Some (id u)
    /\ 0 <= exp <= 3 /\ units !! Z.to_nat exp = Some u
    /\ div = 1024 ^ (exp + 1)
    /\ div <= 1536 < 1024 * div.
Proof.
  apply (formatSize_largest_unit (fun _ => "512 B"%string)
           (fun _ _ u => u) id id 1536). lia.
Defined.

(** ** Painted text *)

Lemma hasLetter_app (a b : string) :
  hasLetter (a ++ b) = hasLetter a || hasLetter b.
Proof.
  induction a as [|c a IH]; [reflexivity|].
  cbn [String.append hasLetter]. rewrite IH. apply orb_assoc.
Qed.

Lemma joinCodes_no_letter (attrs : list attribute) :
  hasLetter (joinCodes attrs) = false.
Proof.
  induction attrs as [|a rest IH]; [reflexivity|].
  destruct rest as [|b rest]; [destruct a; reflexivity|].
  change (joinCodes (a :: b :: rest))
    with (attributeCode a ++ ";" ++ joinCodes (b :: rest))%string.
  rewrite !hasLetter_app, IH. destruct a; reflexivity.
Qed.

Lemma sgrSprint_painter : sgrPainter sgrSprint.
Proof.
  intros attrs text. right. exists (joinCodes attrs), "0"%string.
  split; [apply joinCodes_no_letter|]. split; reflexivity.
Qed.

Lemma plain_painter : sgrPainter (fun _ text => text).
Proof. intros attrs text. left. reflexivity. Qed.

Lemma stripANSI_paint (sprint : list attribute -> string -> string)
    (attrs : list attribute) (text rest : string) :
  sgrPainter sprint -> noEsc text = true ->
  stripANSI (sprint attrs text ++ rest) = (text ++ stripANSI rest)%string.
Proof.
  intros Hp Ht. destruct (Hp attrs text) as [->|(p & q & Hpl & Hql & ->)].
  - apply stripANSI_app_no_escape. exact Ht.
  - rewrite !string_app_assoc. rewrite stripANSI_sgr by exact Hpl.
    rewrite stripANSI_app_no_escape by exact Ht.
    rewrite stripANSI_sgr by exact Hql. reflexivity.
Qed.

Lemma stripANSI_paintAll (sprint : list attribute -> string -> string)
    (cells : list (option (list attribute * string))) :
  sgrPainter sprint ->
  Forall (fun cell => match cell with
                      | Some c => noEsc (snd c) = true
                      | None => True
                      end) cells ->
  stripANSI (paintAll sprint cells) = plainAll cells.
Proof.
  intros Hp Hcells. induction Hcells as [|cell rest Hc _ IH]; [reflexivity|].
  cbn [paintAll plainAll]. destruct cell as [[attrs text]|].
  - cbn [writeCell String.append paint fst snd] in *.
    rewrite (stripANSI_paint sprint attrs text) by assumption.
    rewrite IH. reflexivity.
  - cbn [writeCell String.append]. exact IH.
Qed.

Lemma fold_writeCell (sprint : list attribute -> string -> string)
    (cells : list (option (list attribute * string))) (acc : string) :
  fold_left (writeCell sprint) cells acc = (acc ++ paintAll sprint cells)%string.
Proof.
  revert acc. induction cells as [|cell rest IH]; intros acc.
  - cbn. rewrite string_app_nil. reflexivity.
  - cbn [fold_left paintAll]. rewrite IH.
    destruct cell as [c|]; cbn [writeCell String.append].
    + rewrite string_app_assoc. reflexivity.
    + reflexivity.
Qed.

Lemma formatPermissions_cells (sprint : list attribute -> string -> string)
    (mode : Z) :
  formatPermissions sprint mode = paintAll sprint (permissionCells mode).
Proof.
  unfold formatPermissions, permissionCells. cbn [paintAll].
  generalize (writeCell sprint "" (Some (typeCell mode))).
  generalize [8; 7; 6; 5; 4; 3; 2; 1; 0].
  intros l acc. rewrite <- fold_writeCell. revert acc.
  induction l as [|i l IH]; intros acc; [reflexivity|].
  cbn [fold_left map]. apply IH.
Qed.

(** ** [formatPermissions] *)

Lemma perm_bit (mode i : Z) :
  0 <= i <= 8 ->
  (Z.land (Z.shiftr (Z.land mode ModePerm) i) 1 =? 1) = Z.testbit mode i.
Proof.
  intros Hi. change 1 with (Z.ones 1) at 1.
  rewrite Z.land_ones by lia. change (2 ^ 1) with 2.
  rewrite <- Z.bit0_mod, Z.shiftr_spec, Z.land_spec by lia.
  replace (Z.testbit ModePerm (0 + i)) with true.
  - rewrite andb_true_r, Z.add_0_l. destruct (Z.testbit mode i); reflexivity.
  - assert (i = 0 \/ i = 1 \/ i = 2 \/ i = 3 \/ i = 4 \/ i = 5 \/ i = 6
            \/ i = 7 \/ i = 8) as Hcases by lia.
    repeat (destruct Hcases as [-> | Hcases]; [reflexivity|]).
    subst i. reflexivity.
Qed.

Lemma typeCell_char (mode : Z) :
  exists attrs c, typeCell mode = (attrs, String c EmptyString)
    /\ isEsc c = false /\ (byteVal c <? 128) = true.
Proof.
  unfold typeCell.
  repeat match goal with
         | |- context [modeHas mode ?f] => destruct (modeHas mode f)
         end;
    eexists _, _; (split; [reflexivity | split; reflexivity]).
Qed.

Lemma permCell_char (mode i : Z) :
  0 <= i <= 8 ->
  exists attrs c, permCell mode i = Some (attrs, String c EmptyString)
    /\ isEsc c = false /\ (byteVal c <? 128) = true
    /\ (c = "-"%char <-> Z.testbit mode i = false).
Proof.
  intros Hi. unfold permCell. rewrite perm_bit by exact Hi.
  assert (i = 0 \/ i = 1 \/ i = 2 \/ i = 3 \/ i = 4 \/ i = 5 \/ i = 6
          \/ i = 7 \/ i = 8) as Hcases by lia.
  repeat (destruct Hcases as [-> | Hcases]; [
    cbn [Z.sub Z.rem Z.quotrem Z.eqb Z.opp Z.add Z.pos_sub Pos.pred_double
         Z.succ_double Z.pred_double Z.double];
    destruct (Z.testbit mode _);
    repeat match goal with
           | |- context [modeHas mode ?f] => destruct (modeHas mode f)
           end;
    eexists _, _; (split; [reflexivity|]); (split; [reflexivity|]);
    (split; [reflexivity|]); split; congruence |]).
  subst i. cbn -[Z.testbit modeHas].
  destruct (Z.testbit mode _);
    repeat match goal with
           | |- context [modeHas mode ?f] => destruct (modeHas mode f)
           end;
    eexists _, _; (split; [reflexivity|]); (split; [reflexivity|]);
    (split; [reflexivity|]); split; congruence.
Qed.

Lemma paintAll_plain (cells : list (option (list attribute * string))) :
  paintAll (fun _ text => text) cells = plainAll cells.
Proof.
  induction cells as [|[c|] rest IH]; [reflexivity| |];
    cbn [paintAll plainAll writeCell paint String.append]; rewrite IH;
    reflexivity.
Qed.

(** The ten cells of [formatPermissions] hold one visible ASCII byte each;
    the byte for permission bit [i], at offset [9 - i], is a dash exactly
    when the bit is clear. *)
Lemma permissionCells_bytes (mode : Z) :
  exists cs : list ascii,
    plainAll (permissionCells mode) = string_of_list_ascii cs
    /\ length cs = 10%nat
    /\ Forall (fun c => isEsc c = false /\ (byteVal c <? 128) = true) cs
    /\ Forall (fun cell => match cell with
                           | Some c => noEsc (snd c) = true
                           | None => True
                           end) (permissionCells mode)
    /\ forall i, 0 <= i <= 8 ->
         (cs !! Z.to_nat (9 - i) = Some "-"%char <-> Z.testbit mode i = false).
Proof.
  destruct (typeCell_char mode) as (at_ & t & Ht & Ht1 & Ht2).
  destruct (permCell_char mode 8 ltac:(lia)) as (a8 & c8 & H8 & E8 & A8 & B8).
  destruct (permCell_char mode 7 ltac:(lia)) as (a7 & c7 & H7 & E7 & A7 & B7).
  destruct (permCell_char mode 6 ltac:(lia)) as (a6 & c6 & H6 & E6 & A6 & B6).
  destruct (permCell_char mode 5 ltac:(lia)) as (a5 & c5 & H5 & E5 & A5 & B5).
  destruct (permCell_char mode 4 ltac:(lia)) as (a4 & c4 & H4 & E4 & A4 & B4).
  destruct (permCell_char mode 3 ltac:(lia)) as (a3 & c3 & H3 & E3 & A3 & B3).
  destruct (permCell_char mode 2 ltac:(lia)) as (a2 & c2 & H2 & E2 & A2 & B2).
  destruct (permCell_char mode 1 ltac:(lia)) as (a1 & c1 & H1 & E1 & A1 & B1).
  destruct (permCell_char mode 0 ltac:(lia)) as (a0 & c0 & H0 & E0 & A0 & B0).
  exists [t; c8; c7; c6; c5; c4; c3; c2; c1; c0].
  unfold permissionCells. cbn [map].
  rewrite Ht, H8, H7, H6, H5, H4, H3, H2, H1, H0.
  split; [reflexivity|]. split; [reflexivity|]. split.
  { repeat constructor; assumption. }
  split.
  { repeat constructor; cbn [snd noEsc]; rewrite ?andb_true_r;
      apply negb_true_iff; assumption. }
  intros i Hi.
  assert (i = 0 \/ i = 1 \/ i = 2 \/ i = 3 \/ i = 4 \/ i = 5 \/ i = 6
          \/ i = 7 \/ i = 8) as Hcases by lia.
  assert (Hread : forall (c : ascii) (n : nat),
            [t; c8; c7; c6; c5; c4; c3; c2; c1; c0] !! n = Some c ->
            forall k, Z.to_nat (9 - k) = n ->
              (c = "-"%char <-> Z.testbit mode k = false) ->
              ([t; c8; c7; c6; c5; c4; c3; c2; c1; c0] !! Z.to_nat (9 - k)
                 = Some "-"%char <-> Z.testbit mode k = false)).
  { intros c n Hc k Hk Hiff. rewrite Hk, Hc. rewrite <- Hiff.
    split; [intros [= ->]; reflexivity | intros ->; reflexivity]. }
  destruct Hcases as [-> | [-> | [-> | [-> | [-> | [-> | [-> | [-> | ->]]]]]]]].
  - exact (Hread c0 9%nat eq_refl 0 eq_refl B0).
  - exact (Hread c1 8%nat eq_refl 1 eq_refl B1).
  - exact (Hread c2 7%nat eq_refl 2 eq_refl B2).
  - exact (Hread c3 6%nat eq_refl 3 eq_refl B3).
  - exact (Hread c4 5%nat eq_refl 4 eq_refl B4).
  - exact (Hread c5 4%nat eq_refl 5 eq_refl B5).
  - exact (Hread c6 3%nat eq_refl 6 eq_refl B6).
  - exact (Hread c7 2%nat eq_refl 7 eq_refl B7).
  - exact (Hread c8 1%nat eq_refl 8 eq_refl B8).
Qed.

Lemma isAscii_bytes (cs : list ascii) :
  Forall (fun c => isEsc c = false /\ (byteVal c <? 128) = true) cs ->
  isAscii (string_of_list_ascii cs) = true.
Proof.
  induction 1 as [|c cs [_ Hc] _ IH]; [reflexivity|].
  cbn [string_of_list_ascii isAscii]. rewrite Hc, IH. reflexivity.
Qed.

Lemma length_string_of_list_ascii (cs : list ascii) :
  String.length (string_of_list_ascii cs) = length cs.
Proof. induction cs as [|c cs IH]; [reflexivity|]. cbn. rewrite IH. reflexivity. Qed.

Lemma get_string_of_list_ascii (cs : list ascii) (n : nat) :
  String.get n (string_of_list_ascii cs) = cs !! n.
Proof.
  revert n. induction cs as [|c cs IH]; intros [|n]; try reflexivity.
  cbn [string_of_list_ascii String.get]. apply IH.
Qed.

Lemma formatPermissions_measure
    (sprint : list attribute -> string -> string) (mode : Z) :
  sgrPainter sprint -> measure (formatPermissions sprint mode) = 10.
Proof.
  intros Hp.
  destruct (permissionCells_bytes mode) as (cs & Hcs & Hlen & Hbytes & Hcells & _).
  unfold measure.
  rewrite formatPermissions_cells, stripANSI_paintAll, Hcs by assumption.
  rewrite RuneCount_ascii by (apply isAscii_bytes; exact Hbytes).
  rewrite length_string_of_list_ascii, Hlen. reflexivity.
Qed.

(** X15: stripping the colours off [formatPermissions] gives what it writes
    with colours off: ten characters, measured as ten cells, for every mode
    and every painter. *)
Theorem formatPermissions_plain_text
    (sprint : list attribute -> string -> string) (mode : Z) :
  sgrPainter sprint ->
  stripANSI (formatPermissions sprint mode)
    = formatPermissions (fun _ text => text) mode
  /\ String.length (stripANSI (formatPermissions sprint mode)) = 10%nat
  /\ measure (formatPermissions sprint mode) = 10.
Proof.
  intros Hp.
  destruct (permissionCells_bytes mode) as (cs & Hcs & Hlen & Hbytes & Hcells & _).
  assert (Hstrip : stripANSI (formatPermissions sprint mode)
                   = string_of_list_ascii cs).
  { rewrite formatPermissions_cells, stripANSI_paintAll by assumption.
    exact Hcs. }
  split.
  { rewrite Hstrip, formatPermissions_cells, paintAll_plain. symmetry.
    exact Hcs. }
  split.
  { rewrite Hstrip, length_string_of_list_ascii. exact Hlen. }
  unfold measure. rewrite Hstrip.
  rewrite RuneCount_ascii by (apply isAscii_bytes; exact Hbytes).
  rewrite length_string_of_list_ascii, Hlen. reflexivity.
Qed.

Lemma formatPermissions_plain_text_witness :
  stripANSI (formatPermissions sgrSprint 420) = "-rw-r--r--"%string
  /\ measure (formatPermissions sgrSprint 420) = 10.
Proof.
  destruct (formatPermissions_plain_text sgrSprint 420 sgrSprint_painter)
    as (Hs & _ & Hm).
  split; [exact Hs | exact Hm].
Defined.

(** X16: the nine permission bits can be read back from the rendered string:
    the character for bit [i], at offset [9 - i] once the colours are
    stripped, is a dash exactly when bit [i] of the mode is clear. *)
Theorem formatPermissions_reads_back
    (sprint : list attribute -> string -> string) (mode i : Z) :
  sgrPainter sprint -> 0 <= i <= 8 ->
  (String.get (Z.to_nat (9 - i)) (stripANSI (formatPermissions sprint mode))
     = Some "-"%char
   <-> Z.testbit mode i = false).
Proof.
  intros Hp Hi.
  destruct (permissionCells_bytes mode) as (cs & Hcs & _ & _ & Hcells & Hbits).
  rewrite formatPermissions_cells, stripANSI_paintAll by assumption.
  rewrite Hcs, get_string_of_list_ascii. apply Hbits. exact Hi.
Qed.

Lemma formatPermissions_reads_back_witness :
  String.get 9 (stripANSI (formatPermissions sgrSprint 420)) = Some "-"%char.
Proof.
  apply (formatPermissions_reads_back sgrSprint 420 0 sgrSprint_painter).
  - lia.
  - reflexivity.
Defined.

(** ** The Perms column of [printTable] *)

Lemma lookup_map_Some {A B : Type} (f : A -> B) (l : list A) (i : nat)
    (y : B) :
  map f l !! i = Some y -> exists x, l !! i = Some x /\ y = f x.
Proof.
  revert i. induction l as [|a l IH]; intros [|i] H; try discriminate.
  - injection H as <-. exists a. split; reflexivity.
  - apply (IH i). exact H.
Qed.

Lemma printTable_row (showGit : bool) (files : list fileRow) (i : nat)
    (row : list string) :
  (headers showGit :: map (rowCells showGit) files) !! i = Some row ->
  row = headers showGit
  \/ exists f, f ∈ files /\ row = rowCells showGit f.
Proof.
  destruct i as [|i]; intros Hrow.
  - injection Hrow as <-. left. reflexivity.
  - change (map (rowCells showGit) files !! i = Some row) in Hrow.
    right. apply lookup_map_Some in Hrow as (f & Hf & ->).
    exists f. split; [|reflexivity]. apply list_elem_of_lookup. eauto.
Qed.

(** When the Perms cells come from [formatPermissions], the Perms column
    of a rendered table is exactly 10 wide. *)
Lemma printTable_perms_column
    (sprint : list attribute -> string -> string) (showGit : bool)
    (files : list fileRow) (getTerminalWidth : Z) (ws : list Z) :
  sgrPainter sprint ->
  Forall (fun f => exists mode, cellPerms f = formatPermissions sprint mode)
    files ->
  printTable showGit files getTerminalWidth = Some (Rendered ws) ->
  ws !! 3%nat = Some 10.
Proof.
  intros Hp Hperms Hrun.
  destruct (printTable_rendered_inv showGit files getTerminalWidth ws Hrun)
    as (cl & Hlen & Hb & Hfloor & Hfit & natural & Hcalc & Hcl).
  destruct (printTable_fit_run showGit cl ws (Z.max getTerminalWidth 40)
              Hlen Hb ltac:(lia) Hfit) as (_ & _ & Hbnd).
  destruct files as [|f0 files]; [discriminate|].
  set (data := headers showGit :: map (rowCells showGit) (f0 :: files)) in *.
  destruct (rows_invariant data (length (headers showGit))
              (printTable_grid_rectangular showGit (f0 :: files)))
    as (nat' & Hrun' & _ & Hcols).
  assert (nat' = natural) as -> by (unfold data in *; cbn in *; congruence).
  destruct (Hcols 3%nat ltac:(destruct showGit; cbn; lia))
    as (v & Hv & Hub & Hatt).
  assert (Hcell : forall f, f ∈ f0 :: files ->
            rowCells showGit f !! 3%nat = Some (cellPerms f)
            /\ measure (cellPerms f) = 10).
  { intros f Hf. split; [reflexivity|].
    rewrite Forall_forall in Hperms. destruct (Hperms f Hf) as [mode ->].
    apply (formatPermissions_measure sprint mode Hp). }
  assert (Hv10 : v = 10).
  { destruct (Hcell f0 ltac:(left)) as [Hc0 Hm0].
    pose proof (Hub 1%nat (rowCells showGit f0) (cellPerms f0)
                  eq_refl Hc0) as Hge.
    destruct Hatt as [[Habs _]|(i & row & cell & Hrow & Hc & Hm)];
      [discriminate|].
    destruct (printTable_row showGit (f0 :: files) i row Hrow)
      as [->|(f & Hf & ->)].
    - assert (cell = "Perms"%string)
        by (destruct showGit; cbn in Hc; congruence).
      subst cell. vm_compute in Hm. lia.
    - destruct (Hcell f Hf) as [Hcf Hmf].
      assert (cell = cellPerms f) by congruence. subst cell. lia. }
  subst v.
  assert (Hc3 : cl !! 3%nat = Some 10).
  { rewrite Hcl, Hv. destruct showGit; reflexivity. }
  destruct (Hbnd 3%nat 10 Hc3) as (w & Hw & Hle).
  rewrite Hw. f_equal. unfold slackOf in Hle. cbn in Hle. lia.
Qed.

(** ** Git status *)

(** X17: [getGitStatus] returns nothing, "(clean)", or "+a -d" with [a] in 0..2
    and [d] in 0..1, not both 0; so [formatGitStatus] paints its result
    green or leaves it empty, and never reaches its yellow branch. *)
Theorem formatGitStatus_of_getGitStatus
    (sprint : list attribute -> string -> string)
    (probe : option (StatusCode * StatusCode)) :
  (getGitStatus probe = EmptyString
   /\ formatGitStatus sprint (getGitStatus probe) = EmptyString)
  \/ (getGitStatus probe = "(clean)"%string
      /\ formatGitStatus sprint (getGitStatus probe)
         = sprint [FgGreen] "(clean)"%string)
  \/ exists a d,
       0 <= a <= 2 /\ 0 <= d <= 1 /\ 1 <= a + d
       /\ getGitStatus probe = ("+" ++ fmtD a ++ " -" ++ fmtD d)%string
       /\ formatGitStatus sprint (getGitStatus probe)
          = sprint [FgGreen; Bold] (getGitStatus probe).
Proof.
  destruct probe as [[worktree staging]|]; [|left; split; reflexivity].
  destruct worktree, staging;
    first
      [ left; split; reflexivity
      | right; left; split; reflexivity
      | right; right; exists 1, 0; repeat split; (lia || reflexivity)
      | right; right; exists 0, 1; repeat split; (lia || reflexivity)
      | right; right; exists 1, 1; repeat split; (lia || reflexivity)
      | right; right; exists 2, 0; repeat split; (lia || reflexivity)
      | right; right; exists 2, 1; repeat split; (lia || reflexivity) ].
Qed.

(** ** [formatName] *)

Lemma formatName_painted (sprint : list attribute -> string -> string)
    (lowerExt : string -> string) (file : FileInfo) :
  exists attrs, formatName sprint lowerExt file = sprint attrs (Name file).
Proof.
  unfold formatName.
  repeat match goal with
         | |- context [if ?c then _ else _] => destruct c
         end; eexists; reflexivity.
Qed.

(** X18: whatever colour [formatName] picks, the cell strips back to the file
    name and is measured as the rune count of the name, provided the name
    holds no escape byte. *)
Theorem formatName_plain_text (sprint : list attribute -> string -> string)
    (lowerExt : string -> string) (file : FileInfo) :
  sgrPainter sprint -> noEsc (Name file) = true ->
  stripANSI (formatName sprint lowerExt file) = Name file
  /\ measure (formatName sprint lowerExt file)
     = RuneCountInString (Name file).
Proof.
  intros Hp Hname.
  destruct (formatName_painted sprint lowerExt file) as [attrs Hf].
  assert (Hs : stripANSI (formatName sprint lowerExt file) = Name file).
  { rewrite Hf, <- (string_app_nil (sprint attrs (Name file))).
    rewrite (stripANSI_paint sprint attrs (Name file)) by assumption.
    cbn [stripANSI]. apply string_app_nil. }
  split; [exact Hs|]. unfold measure. rewrite Hs. reflexivity.
Qed.

Lemma formatName_plain_text_witness :
  stripANSI (formatName sgrSprint (fun _ => ".go"%string)
               (mkFile "lah.go" "lah.go" 2048 420 0 false false "")) = "lah.go"%string.
Proof.
  apply (formatName_plain_text sgrSprint (fun _ => ".go"%string)
           (mkFile "lah.go" "lah.go" 2048 420 0 false false "") sgrSprint_painter).
  reflexivity.
Defined.

(** ** The order [sortFiles] asks for *)

Lemma ascii_compare_refl (c : ascii) : Ascii.compare c c = Eq.
Proof. apply N.compare_refl. Qed.

Lemma string_compare_refl (s : string) : String.compare s s = Eq.
Proof.
  induction s as [|c s IH]; [reflexivity|].
  cbn [String.compare]. rewrite ascii_compare_refl. exact IH.
Qed.

Lemma string_compare_trans (a : string) :
  forall b c, String.compare a b = Lt -> String.compare b c = Lt ->
    String.compare a c = Lt.
Proof.
  induction a as [|x a IH]; intros [|y b] [|z c]; cbn [String.compare];
    try discriminate; try reflexivity.
  unfold Ascii.compare.
  destruct (N.compare_spec (N_of_ascii x) (N_of_ascii y)) as [Hxy|Hxy|Hxy];
    destruct (N.compare_spec (N_of_ascii y) (N_of_ascii z)) as [Hyz|Hyz|Hyz];
    try discriminate; intros H1 H2.
  - rewrite Hxy, Hyz, N.compare_refl. exact (IH b c H1 H2).
  - rewrite Hxy. apply N.compare_lt_iff in Hyz. rewrite Hyz. reflexivity.
  - rewrite <- Hyz. apply N.compare_lt_iff in Hxy. rewrite Hxy. reflexivity.
  - assert (Hxz : (N_of_ascii x < N_of_ascii z)%N) by lia.
    apply N.compare_lt_iff in Hxz. rewrite Hxz. reflexivity.
Qed.

Lemma stringsCompare_cases (a b : string) :
  (stringsCompare a b = -1 /\ String.compare a b = Lt)
  \/ (stringsCompare a b = 0 /\ a = b)
  \/ (stringsCompare a b = 1 /\ String.compare b a = Lt).
Proof.
  unfold stringsCompare. destruct (String.compare a b) eqn:Hc.
  - right. left. split; [reflexivity|]. apply String.compare_eq_iff. exact Hc.
  - left. auto.
  - right. right. split; [reflexivity|].
    rewrite String.compare_antisym, Hc. reflexivity.
Qed.

Lemma string_compare_irrefl (a : string) : String.compare a a <> Lt.
Proof. rewrite string_compare_refl. discriminate. Qed.

Lemma string_compare_asym (a b : string) :
  String.compare a b = Lt -> String.compare b a = Lt -> False.
Proof.
  intros H1 H2. apply (string_compare_irrefl a).
  exact (string_compare_trans a b a H1 H2).
Qed.

Lemma nameOrder_irrefl (rev : bool) (x : string) :
  (if rev then 0 <? stringsCompare x x else stringsCompare x x <? 0) = false.
Proof.
  unfold stringsCompare. rewrite string_compare_refl.
  destruct rev; reflexivity.
Qed.

Lemma nameOrder_trans (rev : bool) (x y z : string) :
  (if rev then 0 <? stringsCompare x y else stringsCompare x y <? 0) = true ->
  (if rev then 0 <? stringsCompare y z else stringsCompare y z <? 0) = true ->
  (if rev then 0 <? stringsCompare x z else stringsCompare x z <? 0) = true.
Proof.
  destruct (stringsCompare_cases x y) as [[-> Hxy]|[[-> Hxy]|[-> Hxy]]],
           (stringsCompare_cases y z) as [[-> Hyz]|[[-> Hyz]|[-> Hyz]]],
           (stringsCompare_cases x z) as [[-> Hxz]|[[-> Hxz]|[-> Hxz]]];
    destruct rev; cbn; intros H1 H2; try discriminate; try reflexivity;
    exfalso; subst.
  all: first
    [ exact (string_compare_asym _ _ (string_compare_trans _ _ _ Hxy Hyz) Hxz)
    | exact (string_compare_asym _ _ (string_compare_trans _ _ _ Hyz Hxy) Hxz)
    | exact (string_compare_irrefl _ (string_compare_trans _ _ _ Hxy Hyz))
    | exact (string_compare_irrefl _ (string_compare_trans _ _ _ Hyz Hxy)) ].
Qed.

Lemma nameOrder_total (rev : bool) (x y : string) :
  (if rev then 0 <? stringsCompare x y else stringsCompare x y <? 0) = false ->
  (if rev then 0 <? stringsCompare y x else stringsCompare y x <? 0) = false ->
  x = y.
Proof.
  destruct (stringsCompare_cases x y) as [[-> Hxy]|[[-> Hxy]|[-> Hxy]]],
           (stringsCompare_cases y x) as [[-> Hyx]|[[-> Hyx]|[-> Hyx]]];
    destruct rev; cbn; intros H1 H2; try discriminate; try congruence.
  all: exfalso; exact (string_compare_asym _ _ Hxy Hyx).
Qed.

(** X19: the two orders handed to [sort.Slice] are strict weak orders, as
    sorting needs: no file is before itself, before is transitive, and
    files that are not ordered either way form classes. By name,
    directories come before files whether or not the order is reversed. *)
Theorem lessFiles_strict_weak_order (toLower : string -> string)
    (config : Config) :
  (forall a, lessFiles toLower config a a = false)
  /\ (forall a b c,
        lessFiles toLower config a b = true ->
        lessFiles toLower config b c = true ->
        lessFiles toLower config a c = true)
  /\ (forall a b c,
        lessFiles toLower config a b = false ->
        lessFiles toLower config b a = false ->
        lessFiles toLower config b c = false ->
        lessFiles toLower config c b = false ->
        lessFiles toLower config a c = false
        /\ lessFiles toLower config c a = false)
  /\ (SortModified config = false ->
      forall a b, IsDir a = true -> IsDir b = false ->
        lessFiles toLower config a b = true
        /\ lessFiles toLower config b a = false).
Proof.
  unfold lessFiles. destruct (SortModified config).
  - split; [|split; [|split]].
    + intros a. destruct (Reverse config); apply Z.ltb_irrefl.
    + intros a b c. destruct (Reverse config);
        rewrite !Z.ltb_lt; lia.
    + intros a b c. destruct (Reverse config);
        rewrite !Z.ltb_ge; lia.
    + discriminate.
  - split; [|split; [|split]].
    + intros a. rewrite eqb_reflx. cbn. apply nameOrder_irrefl.
    + intros a b c.
      destruct (IsDir a), (IsDir b), (IsDir c); cbn;
        try discriminate; try reflexivity; apply nameOrder_trans.
    + intros a b c.
      destruct (IsDir a), (IsDir b), (IsDir c); cbn;
        try discriminate; intros H1 H2 H3 H4;
        pose proof (nameOrder_total _ _ _ H1 H2) as Hab;
        pose proof (nameOrder_total _ _ _ H3 H4) as Hbc;
        rewrite Hab, Hbc, nameOrder_irrefl; split; reflexivity.
    + intros _ a b -> ->. cbn. split; reflexivity.
Qed.

Lemma lessFiles_strict_weak_order_witness :
  lessFiles id (mkConfig false true false)
    (mkFile "zeta" "zeta" 0 (ModeDir + 493) 0 true false "") (mkFile "alpha" "alpha" 12 420 0 false false "") = true.
Proof.
  apply (proj2 (proj2 (proj2 (lessFiles_strict_weak_order id
           (mkConfig false true false)))) eq_refl); reflexivity.
Defined.

(** ** [printTable] from the files *)

Lemma formatSize_panics_iff (sprintfBytes : Z -> string)
    (sprintfUnit : Z -> Z -> string -> string)
    (fgCyan fgHiWhite : string -> string) (size : Z) (isDir : bool) :
  size <= GoInt.maxInt ->
  (formatSize sprintfBytes sprintfUnit fgCyan fgHiWhite size isDir = None
   <-> isDir = false /\ 1024 ^ 5 <= size).
Proof.
  intros Hmax. unfold formatSize, GoInt.maxInt in *.
  destruct isDir; [split; [discriminate | intros [H _]; discriminate]|].
  destruct (Z.ltb_spec size 1024) as [Hlt|Hge];
    [split; [discriminate | lia]|].
  assert (Hn : 1 <= Z.quot size 1024 < 1024 ^ 6).
  { rewrite Z.quot_div_nonneg by lia. split.
    - apply Z.div_le_lower_bound; lia.
    - apply Z.div_lt_upper_bound; lia. }
  assert (Hsz : 1024 * Z.quot size 1024 <= size
                < 1024 * Z.quot size 1024 + 1024).
  { rewrite Z.quot_div_nonneg by lia.
    pose proof (Z.mul_div_le size 1024 ltac:(lia)).
    pose proof (Z.mul_succ_div_gt size 1024 ltac:(lia)). lia. }
  set (n := Z.quot size 1024) in *.
  assert (Hk : exists k : nat, (k <= 5)%nat
            /\ 1024 ^ Z.of_nat k <= n < 1024 ^ (Z.of_nat k + 1)).
  { destruct (Z_lt_dec n 1024); [exists 0%nat; cbn; lia|].
    destruct (Z_lt_dec n (1024 ^ 2)); [exists 1%nat; cbn; lia|].
    destruct (Z_lt_dec n (1024 ^ 3)); [exists 2%nat; cbn; lia|].
    destruct (Z_lt_dec n (1024 ^ 4)); [exists 3%nat; cbn; lia|].
    destruct (Z_lt_dec n (1024 ^ 5)); [exists 4%nat; cbn; lia|].
    exists 5%nat. cbn. lia. }
  destruct Hk as (k & Hk5 & Hk).
  pose proof (unitLoop_exp k n 1024 0 Hk ltac:(lia)
                ltac:(unfold GoInt.maxInt; lia)) as Hexp.
  destruct (unitLoop n 1024 0) as [div exp]. cbn [snd] in Hexp. subst exp.
  destruct (le_lt_dec 4 k) as [Hbig|Hsmall].
  - rewrite unitAt_none by lia. cbn. split; [|reflexivity].
    intros _. split; [reflexivity|].
    assert (1024 ^ 4 <= 1024 ^ Z.of_nat k) by (apply Z.pow_le_mono_r; lia).
    lia.
  - destruct (unitAt_some (0 + Z.of_nat k) ltac:(lia)) as [u ->]. cbn.
    split; [discriminate|]. intros [_ Hs].
    assert (1024 ^ (Z.of_nat k + 1) <= 1024 ^ 4)
      by (apply Z.pow_le_mono_r; lia).
    lia.
Qed.

Section ListingProperties.

Variable sprint : list attribute -> string -> string.
Variable lowerExt : string -> string.
Variable sprintfBytes : Z -> string.
Variable sprintfUnit : Z -> Z -> string -> string.
Variable formatModified : Z -> Z -> string.

(** X20: [printTable] panics exactly when the listing holds a file, not a
    directory, of 1024^5 bytes or more: its size has no unit in
    [formatSize]. On every other listing it returns. *)
Theorem printListing_panics_iff_huge_file (files : list FileInfo) (now : Z)
    (config : Config) (terminal : Z) :
  Forall (fun f => Size f <= GoInt.maxInt) files ->
  (printListing sprint lowerExt sprintfBytes sprintfUnit formatModified
     files now config terminal = None
   <-> Exists (fun f => IsDir f = false /\ 1024 ^ 5 <= Size f) files).
Proof.
  intros Hsizes. unfold printListing.
  assert (Hrow : forall f, Size f <= GoInt.maxInt ->
            (tableRow sprint lowerExt sprintfBytes sprintfUnit formatModified
               now f = None
             <-> IsDir f = false /\ 1024 ^ 5 <= Size f)).
  { intros f Hf. unfold tableRow.
    rewrite <- (formatSize_panics_iff sprintfBytes sprintfUnit
                  (sprint [FgCyan]) (sprint [FgHiWhite]) (Size f) (IsDir f) Hf).
    destruct (formatSize _ _ _ _ _ _); cbn; split; auto; discriminate. }
  destruct (mapM _ files) as [rows|] eqn:Hrows; cbn.
  - destruct (printTable_total (ShowGit config) rows terminal) as [o ->].
    split; [discriminate|]. intros Hex. exfalso.
    assert (Hnone : mapM (tableRow sprint lowerExt sprintfBytes sprintfUnit
                            formatModified now) files = None).
    { apply mapM_None. apply Exists_exists in Hex as (f & Hin & Hf).
      apply Exists_exists. exists f. split; [exact Hin|].
      rewrite Forall_forall in Hsizes. apply Hrow; auto. }
    congruence.
  - split; [|reflexivity]. intros _.
    apply mapM_None in Hrows. apply Exists_exists in Hrows as (f & Hin & Hf).
    apply Exists_exists. exists f. split; [exact Hin|].
    rewrite Forall_forall in Hsizes. apply Hrow; auto.
Qed.

End ListingProperties.

Lemma printListing_panics_iff_huge_file_witness :
  printListing sgrSprint (fun _ => ""%string) (fun _ => "0 B"%string)
    (fun _ _ u => u) (fun _ _ => "future"%string)
    [mkFile "sparse.img" "sparse.img" (1024 ^ 5) 420 0 false false ""]
    0 (mkConfig false false false) 80
  = None.
Proof.
  apply (proj2 (printListing_panics_iff_huge_file sgrSprint
                  (fun _ => ""%string) (fun _ => "0 B"%string)
                  (fun _ _ u => u) (fun _ _ => "future"%string)
                  [mkFile "sparse.img" "sparse.img" (1024 ^ 5) 420 0
                     false false ""]
                  0 (mkConfig false false false) 80
                  ltac:(repeat constructor; vm_compute; discriminate))).
  apply Exists_cons_hd. split; [reflexivity | cbn; lia].
Defined.

Section ListingColumns.

Variable sprint : list attribute -> string -> string.
Variable lowerExt : string -> string.
Variable sprintfBytes : Z -> string.
Variable sprintfUnit : Z -> Z -> string -> string.
Variable formatModified : Z -> Z -> string.

(** X21: in every table that [printTable] renders the Perms column is exactly
    10 wide, its minimum, whatever the modes of the files: the cells of
    [formatPermissions] all measure 10 and the fit step leaves the column
    alone. *)
Theorem printListing_perms_column (files : list FileInfo) (now : Z)
    (config : Config) (terminal : Z) (ws : list Z) :
  sgrPainter sprint ->
  printListing sprint lowerExt sprintfBytes sprintfUnit formatModified
    files now config terminal = Some (Rendered ws) ->
  ws !! 3%nat = Some 10.
Proof.
  intros Hp. unfold printListing.
  destruct (mapM _ files) as [rows|] eqn:Hrows; [|discriminate]. cbn.
  apply (printTable_perms_column sprint (ShowGit config) rows terminal ws Hp).
  apply mapM_Some in Hrows.
  induction Hrows as [|f row files rows Hrow _ IH]; constructor; [|exact IH].
  unfold tableRow in Hrow.
  destruct (formatSize _ _ _ _ _ _) as [size|]; [|discriminate].
  cbn in Hrow. injection Hrow as <-. exists (Mode f). reflexivity.
Qed.

End ListingColumns.

Lemma printListing_perms_column_witness :
  exists ws,
    printListing sgrSprint (fun _ => ".go"%string) (fun _ => "512 B"%string)
      (fun _ _ u => u) (fun _ _ => "2 days ago"%string)
      [mkFile "lah.go" "lah.go" 512 420 0 false false ""]
      0 (mkConfig false false false) 80
    = Some (Rendered ws)
    /\ ws !! 3%nat = Some 10.
Proof.
  eexists. split; [vm_compute; reflexivity|].
  apply (printListing_perms_column sgrSprint (fun _ => ".go"%string)
           (fun _ => "512 B"%string) (fun _ _ u => u)
           (fun _ _ => "2 days ago"%string)
           [mkFile "lah.go" "lah.go" 512 420 0 false false ""]
           0 (mkConfig false false false) 80 _ sgrSprint_painter).
  vm_compute. reflexivity.
Defined.
